(** * GroupNavigation: the scroll-synchronised group navigator

    A shallow embedding of [src/components/GroupNavigation.tsx]: the
    pin (sticky) rule evaluated on every scroll event, the per-group
    intersection observers, the click-to-scroll handler and the tooltip
    map, together with the JavaScript string and number primitives they
    rely on ([String.prototype.replace], [parseInt], template literals).

    Conventions of the model.
    - Pixel quantities and group ids are JavaScript numbers holding integers;
      they are modelled as [Z], exactly.  The result of [parseInt] is either
      such an integer or [NaN].  Rounding, which JavaScript applies beyond
      2^53, is outside the model; statements that go through the decimal
      numeral of a group id are made for safe integers.
    - React state setters are applied to the component state at the point of
      the call.  No handler of the component reads a state variable after it
      has set that same variable, so this agrees with React's deferred update.
    - Calls that leave the component (callbacks of the parent, [window] and
      observer operations) are recorded, in program order, in a trace. *)

From Stdlib Require Import ZArith Ascii String DecimalString DecimalZ DecimalPos Lia.
From stdpp Require Import base option list gmap strings.

Local Open Scope Z_scope.

(** ** JavaScript primitives *)

Module JS.

(** [s.slice(n)] for [0 <= n]. *)
Fixpoint drop (n : nat) (s : string) : string :=
  match n, s with
  | O, _ => s
  | S n', String _ s' => drop n' s'
  | S _, EmptyString => EmptyString
  end.

(** [s.startsWith(pat)]. *)
Fixpoint starts_with (pat s : string) : bool :=
  match pat, s with
  | EmptyString, _ => true
  | String a pat', String b s' => Ascii.eqb a b && starts_with pat' s'
  | String _ _, EmptyString => false
  end.

(** [s.replace(pat, rep)] for a string pattern: only the first occurrence
    of [pat] is replaced.  (The component passes [''] for [rep], so the
    [$]-patterns of a replacement string do not arise.) *)
Fixpoint replace (pat rep s : string) : string :=
  if starts_with pat s then rep +:+ drop (String.length pat) s
  else match s with
       | EmptyString => EmptyString
       | String c s' => String c (replace pat rep s')
       end.

(** The result of [parseInt]. *)
Inductive number : Type :=
| NaN : number
| Int : Z -> number.

(** White space skipped by [parseInt] (the ASCII part of
    [StrWhiteSpaceChar]: TAB, LF, VT, FF, CR, SP). *)
Definition is_white_space (c : ascii) : bool :=
  let n := Z.of_N (N_of_ascii c) in
  ((9 <=? n) && (n <=? 13)) || (n =? 32).

Fixpoint trim_start (s : string) : string :=
  match s with
  | String c s' => if is_white_space c then trim_start s' else s
  | EmptyString => EmptyString
  end.

(** The value of [c] as a digit in radix [radix], if it is one. *)
Definition digit_value (radix : Z) (c : ascii) : option Z :=
  let n := Z.of_N (N_of_ascii c) in
  let v := if (48 <=? n) && (n <=? 57) then Some (n - 48)
           else if (97 <=? n) && (n <=? 122) then Some (n - 87)
           else if (65 <=? n) && (n <=? 90) then Some (n - 55)
           else None in
  match v with
  | Some d => if d <? radix then Some d else None
  | None => None
  end.

(** The longest prefix of [s] made of radix-[radix] digits, as digit
    values. *)
Fixpoint digits_prefix (radix : Z) (s : string) : list Z :=
  match s with
  | String c s' =>
      match digit_value radix c with
      | Some d => d :: digits_prefix radix s'
      | None => []
      end
  | EmptyString => []
  end.

Definition digits_to_Z (radix : Z) (ds : list Z) : Z :=
  fold_left (fun acc d => acc * radix + d) ds 0.

(** [parseInt(s)] with no radix argument: leading white space is skipped,
    a sign is read, a [0x]/[0X] prefix selects radix 16 (otherwise radix
    10), and the longest prefix of digits is converted; there being none
    gives [NaN].  Characters after the digits are ignored. *)
Definition parseInt (s : string) : number :=
  let s1 := trim_start s in
  let '(sign, s2) :=
    match s1 with
    | String "-" r => (-1, r)
    | String "+" r => (1, r)
    | _ => (1, s1)
    end in
  let '(radix, s3) :=
    match s2 with
    | String "0" (String "x" r) => (16, r)
    | String "0" (String "X" r) => (16, r)
    | _ => (10, s2)
    end in
  match digits_prefix radix s3 with
  | [] => NaN
  | ds => Int (sign * digits_to_Z radix ds)
  end.

(** [`${n}`] for a safe integer [n]: its decimal numeral.  (Beyond the safe
    integers a JavaScript number is no exact integer, and from 10^21 on it
    prints in exponent form; statements about the numeral of a group id are
    made for safe integers, see [isSafeInteger] below.) *)
Definition to_string (n : Z) : string :=
  NilZero.string_of_int (Z.to_int n).

(** [s.length], the number of UTF-16 code units of [s], for a string held
    as UTF-8 bytes: a continuation byte counts for nothing, the lead byte of
    a four-byte sequence for a surrogate pair, any other byte for one unit. *)
Fixpoint length (s : string) : Z :=
  match s with
  | EmptyString => 0
  | String c s' =>
      let n := Z.of_N (N_of_ascii c) in
      (if (128 <=? n) && (n <? 192) then 0
       else if 240 <=? n then 2
       else 1) + length s'
  end.

(** [Number.isSafeInteger(n)]. *)
Definition isSafeInteger (n : Z) : Prop := - 2 ^ 53 < n < 2 ^ 53.

End JS.

(** ** Data of the component *)

(** Modelled from the spec: the declaration of [GroupWithSites] (imported
    from [../types]) is not among the sources. The component reads only
    [group.id], a number holding an integer, and [group.name]. *)
Record GroupWithSites : Type := {
  id : Z;
  name : string;
}.

(** [GroupNavigationProps].  The two optional callbacks are represented by
    whether the parent passed them; their invocations are recorded in the
    trace.  [isPinned] is optional: [None] is [undefined]. *)
Record GroupNavigationProps : Type := {
  groups : list GroupWithSites;
  isPinned : option bool;
  onPinChange : bool;
  onGroupClick : bool;
}.

(** What [getBoundingClientRect()] returns for an element (viewport
    coordinates); only the fields the component reads. *)
Record DOMRect : Type := {
  rect_top : Z;
  rect_left : Z;
  rect_height : Z;
}.

(** The browser as a handler sees it when it runs: [window.scrollY], the
    elements [document.getElementById] finds, the two refs attached by React
    ([None] is a [null] ref) and the media query result. *)
Record Page : Type := {
  scrollY : Z;
  getElementById : gmap string DOMRect;
  navRef : option DOMRect;
  firstGroupRef : option DOMRect;
  isMobile : bool;
}.

Record NavPosition : Type := {
  top : Z;
  left : Z;
  height : Z;
}.

(** An [IntersectionObserver] created by the component: the group its
    callback closes over and the element ids it currently observes. *)
Record IntersectionObserver : Type := {
  observer_group : GroupWithSites;
  observer_targets : list string;
}.

Record IntersectionObserverEntry : Type := {
  isIntersecting : bool;
}.

(** The [useState] cells and the [observerRefs] ref of the component.
    [observerRefs] is a JavaScript object used as a map from element id to
    observer; [Object.values] enumerates it in insertion order, so it is an
    association list.  [observers] is the store of every observer created so
    far, an observer being named by its index in the store. *)
Record State : Type := {
  activeGroupId : option string;
  isSticky : bool;
  navPosition : NavPosition;
  tooltipOpen : gmap string bool;
  observerRefs : list (string * option nat);
  observers : list IntersectionObserver;
}.

(** The initial values of the state cells and of [observerRefs]. *)
Definition initial_state : State := {|
  activeGroupId := None;
  isSticky := false;
  navPosition := {| top := 0; left := 0; height := 0 |};
  tooltipOpen := ∅;
  observerRefs := [];
  observers := [];
|}.

(** Calls that leave the component, in program order. *)
Inductive Call : Type :=
| CallOnPinChange (pinned : bool)
| CallOnGroupClick (groupIdNumber : JS.number)
| CallScrollTo (offsetPosition : Z)
| CallSetTimeout (delay : Z)
| CallAddEventListener (type : string)
| CallRemoveEventListener (type : string)
| CallNewObserver (h : nat)
| CallObserve (h : nat) (element : string)
| CallDisconnect (h : nat).

(** ** A state and trace monad for the handlers *)

Definition M (A : Type) : Type := State → A * State * list Call.

Global Instance M_ret : MRet M := λ A x st, (x, st, []).
Global Instance M_bind : MBind M := λ A B f m st,
  let '(x, st1, t1) := m st in
  let '(y, st2, t2) := f x st1 in
  (y, st2, t1 ++ t2).

Definition get {A : Type} (f : State → A) : M A := λ st, (f st, st, []).
Definition modify (f : State → State) : M unit := λ st, ((), f st, []).
Definition call (c : Call) : M unit := λ st, ((), st, [c]).

(** State and trace after running [m] from [st]. *)
Definition exec {A : Type} (m : M A) (st : State) : State := (m st).1.2.
Definition trace {A : Type} (m : M A) (st : State) : list Call := (m st).2.

(** [l.forEach(f)]. *)
Fixpoint forEach {A : Type} (l : list A) (f : A → M unit) : M unit :=
  match l with
  | [] => mret ()
  | x :: l' => f x ;; forEach l' f
  end.

(** The state setters. *)
Definition setActiveGroupId (v : option string) : M unit :=
  modify (λ st, {| activeGroupId := v; isSticky := isSticky st;
                   navPosition := navPosition st; tooltipOpen := tooltipOpen st;
                   observerRefs := observerRefs st; observers := observers st |}).

Definition setIsSticky (v : bool) : M unit :=
  modify (λ st, {| activeGroupId := activeGroupId st; isSticky := v;
                   navPosition := navPosition st; tooltipOpen := tooltipOpen st;
                   observerRefs := observerRefs st; observers := observers st |}).

Definition setNavPosition (v : NavPosition) : M unit :=
  modify (λ st, {| activeGroupId := activeGroupId st; isSticky := isSticky st;
                   navPosition := v; tooltipOpen := tooltipOpen st;
                   observerRefs := observerRefs st; observers := observers st |}).

Definition setTooltipOpen (f : gmap string bool → gmap string bool) : M unit :=
  modify (λ st, {| activeGroupId := activeGroupId st; isSticky := isSticky st;
                   navPosition := navPosition st; tooltipOpen := f (tooltipOpen st);
                   observerRefs := observerRefs st; observers := observers st |}).

Definition set_observerRefs (v : list (string * option nat)) : M unit :=
  modify (λ st, {| activeGroupId := activeGroupId st; isSticky := isSticky st;
                   navPosition := navPosition st; tooltipOpen := tooltipOpen st;
                   observerRefs := v; observers := observers st |}).

Definition set_observers (f : list IntersectionObserver → list IntersectionObserver) : M unit :=
  modify (λ st, {| activeGroupId := activeGroupId st; isSticky := isSticky st;
                   navPosition := navPosition st; tooltipOpen := tooltipOpen st;
                   observerRefs := observerRefs st; observers := f (observers st) |}).

(** Truthiness of the optional [isPinned] prop: [undefined] is falsy. *)
Definition truthy (b : option bool) : bool := default false b.

(** [`group-${id}`], the element id derived from a group id. *)
Definition group_key (n : Z) : string := "group-" +:+ JS.to_string n.

(** ** Geometry: [updateNavPosition] and its effect *)

Definition updateNavPosition (page : Page) : M unit :=
  match firstGroupRef page, navRef page with
  | Some firstGroupRect, Some navRect =>
      setNavPosition {| top := rect_top firstGroupRect;
                        left := rect_left navRect;
                        height := rect_height navRect |}
  | _, _ => mret ()
  end.

(** The body of the first effect: the measurement itself is deferred to a
    timer and to [resize] events, each of which runs [updateNavPosition]. *)
Definition navPosition_effect : M unit :=
  call (CallSetTimeout 100) ;;
  call (CallAddEventListener "resize").

Definition navPosition_cleanup : M unit :=
  call (CallRemoveEventListener "resize").

(** ** Pinning: [handleScroll] and its effect *)

(** The local [firstGroupTop] of [handleScroll]: the document position of the
    live marker element, or else the stored [navPosition.top]. *)
Definition firstGroupTop (page : Page) (st : State) : Z :=
  match getElementById page !! "first-group-marker" with
  | Some firstGroupElement => rect_top firstGroupElement + scrollY page
  | None => top (navPosition st)
  end.

Definition handleScroll (props : GroupNavigationProps) (page : Page) : M unit :=
  match navRef page with
  | None => mret ()
  | Some _ =>
      firstGroupTop ← get (firstGroupTop page);
      if scrollY page >? firstGroupTop then
        setIsSticky true ;;
        if onPinChange props && negb (truthy (isPinned props))
        then call (CallOnPinChange true) else mret ()
      else
        setIsSticky false ;;
        if onPinChange props && truthy (isPinned props)
        then call (CallOnPinChange false) else mret ()
  end.

Definition scroll_effect : M unit := call (CallAddEventListener "scroll").
Definition scroll_cleanup : M unit := call (CallRemoveEventListener "scroll").

(** ** Visibility: the intersection observers and their effect *)

(** [new IntersectionObserver(callback, options)] for the callback of
    [group]: the observer is added to the store, observing nothing yet. *)
Definition new_IntersectionObserver (group : GroupWithSites) : M nat :=
  h ← get (λ st, length (observers st));
  set_observers (λ os, os ++ [{| observer_group := group; observer_targets := [] |}]) ;;
  call (CallNewObserver h) ;;
  mret h.

(** An observer with one more target, and with none. *)
Definition with_target (element : string) (o : IntersectionObserver)
  : IntersectionObserver :=
  {| observer_group := observer_group o;
     observer_targets := observer_targets o ++ [element] |}.

Definition cleared (o : IntersectionObserver) : IntersectionObserver :=
  {| observer_group := observer_group o; observer_targets := [] |}.

(** [observer.observe(element)]. *)
Definition observe (h : nat) (element : string) : M unit :=
  set_observers (alter (with_target element) h) ;;
  call (CallObserve h element).

(** [observer.disconnect()]: the observer stops observing all its targets. *)
Definition disconnect (h : nat) : M unit :=
  set_observers (alter cleared h) ;;
  call (CallDisconnect h).

(** [o[key] = v] on an object used as a map: an existing key keeps its place
    in the enumeration order, a new key goes last. *)
Fixpoint assign (key : string) (v : option nat) (o : list (string * option nat))
  : list (string * option nat) :=
  match o with
  | [] => [(key, v)]
  | (k, w) :: o' => if decide (k = key) then (k, v) :: o' else (k, w) :: assign key v o'
  end.

(** [Object.values(observerRefs.current).forEach(observer => { if (observer)
    observer.disconnect(); })]. *)
Definition disconnect_all : M unit :=
  refs ← get observerRefs;
  forEach refs.*2 (λ observer,
    match observer with
    | Some h => disconnect h
    | None => mret ()
    end).

(** The body of the third effect. *)
Definition observers_effect (props : GroupNavigationProps) (page : Page) : M unit :=
  disconnect_all ;;
  set_observerRefs [] ;;
  forEach (groups props) (λ group,
    match getElementById page !! group_key (id group) with
    | Some _ =>
        observer ← new_IntersectionObserver group;
        observe observer (group_key (id group)) ;;
        refs ← get observerRefs;
        set_observerRefs (assign (group_key (id group)) (Some observer) refs)
    | None => mret ()
    end).

Definition observers_cleanup : M unit := disconnect_all.

(** The callback given to the observer of [group], run on [entries]. *)
Definition observer_callback (group : GroupWithSites)
    (entries : list IntersectionObserverEntry) : M unit :=
  forEach entries (λ entry,
    if isIntersecting entry
    then setActiveGroupId (Some (group_key (id group)))
    else mret ()).

(** ** Navigation: the click and hover handlers *)

Definition handleNavClick (props : GroupNavigationProps) (page : Page)
    (groupId : string) : M unit :=
  setTooltipOpen (λ prev, <[groupId := false]> prev) ;;
  match getElementById page !! groupId with
  | Some element =>
      isSticky ← get isSticky;
      navPosition ← get navPosition;
      let offset := if isSticky : bool then height navPosition + 20 else 20 in
      let elementPosition := rect_top element + scrollY page in
      let offsetPosition := elementPosition - offset in
      call (CallScrollTo offsetPosition)
  | None => mret ()
  end ;;
  if onGroupClick props then
    let groupIdNumber := JS.parseInt (JS.replace "group-" "" groupId) in
    call (CallOnGroupClick groupIdNumber)
  else mret ().

Definition handleMouseEnter (groupId : string) : M unit :=
  setTooltipOpen (λ prev, <[groupId := true]> prev).

Definition handleMouseLeave (groupId : string) : M unit :=
  setTooltipOpen (λ prev, <[groupId := false]> prev).

(** ** Rendering and the life cycle *)

(** What is rendered, as far as the tracking state shows in it: the
    positioning of the container and, per group, the element id its button
    scrolls to, whether it is selected and, for a name of more than four
    characters, which alone gets a tooltip, whether that tooltip is open.
    Styling is left out. *)
Record NavItem : Type := {
  item_target : string;
  item_selected : bool;
  item_tooltip_open : option bool;
}.

Record View : Type := {
  view_fixed : bool;
  view_left : Z;
  view_items : list NavItem;
}.

(** The value returned by the component function: [None] is [null]. *)
Definition GroupNavigation (props : GroupNavigationProps) (page : Page) (st : State)
  : option View :=
  if decide (length (groups props) = 0%nat) then None
  else Some {|
    view_fixed := isSticky st;
    view_left := if isSticky st
                 then (if isMobile page then 0 else left (navPosition st))
                 else 0;
    view_items :=
      (λ group, {|
         item_target := group_key (id group);
         item_selected := bool_decide (activeGroupId st = Some (group_key (id group)));
         item_tooltip_open :=
           if JS.length (name group) >? 4
           then Some (default false (tooltipOpen st !! group_key (id group)))
           else None;
       |}) <$> groups props;
  |}.

(** The effects run when the component mounts.  They are hooks: all three
    run whatever the component function returns. *)
Definition mount (props : GroupNavigationProps) (page : Page) : M unit :=
  navPosition_effect ;;
  scroll_effect ;;
  observers_effect props page.

(** A render with a new [groups] array: the clean-ups of the two effects
    that depend on [groups] run, then their bodies. *)
Definition groups_changed (props : GroupNavigationProps) (page : Page) : M unit :=
  navPosition_cleanup ;;
  observers_cleanup ;;
  navPosition_effect ;;
  observers_effect props page.

(** A sequence of scroll events under unchanged props. *)
Definition scroll_events (props : GroupNavigationProps) (pages : list Page) : M unit :=
  forEach pages (handleScroll props).

(** A sequence of scroll evaluations.  Each is made by the listener in
    place when the event arrives, and that listener holds the props of the
    render whose effect registered it: the sequence gives, for each event,
    those props and the page. *)
Definition scroll_evaluations (evs : list (GroupNavigationProps * Page)) : M unit :=
  forEach evs (λ ev, handleScroll ev.1 ev.2).

(** Every evaluation of [evs], run from [st], is made with the container
    mounted, by a listener that has a callback to notify and holds as
    [isPinned] the pin state of that moment: before each scroll event the
    component was rendered again with the flag the parent was last notified
    of, and the listener registered anew. *)
Fixpoint in_step (evs : list (GroupNavigationProps * Page)) (st : State) : Prop :=
  match evs with
  | [] => True
  | ev :: evs' =>
      onPinChange ev.1 = true ∧
      truthy (isPinned ev.1) = isSticky st ∧
      is_Some (navRef ev.2) ∧
      in_step evs' (exec (handleScroll ev.1 ev.2) st)
  end.

(** Whether observer [h] of the store [os] is observing some element. *)
Definition is_observing (os : list IntersectionObserver) (h : nat) : bool :=
  match os !! h with
  | Some o => match observer_targets o with [] => false | _ :: _ => true end
  | None => false
  end.

Definition observing (st : State) (h : nat) : bool := is_observing (observers st) h.

(** The observers that are observing something, by index in the store. *)
Definition live (st : State) : list nat :=
  filter (λ h, Is_true (observing st h)) (seq 0 (length (observers st))).

(** The element ids observed by [h]. *)
Definition targets_of (st : State) (h : nat) : list string :=
  from_option observer_targets [] (observers st !! h).

(** The sections that get an observer: those whose element is in the
    document when the effect runs. *)
Definition present_groups (props : GroupNavigationProps) (page : Page)
  : list GroupWithSites :=
  filter (λ group, is_Some (getElementById page !! group_key (id group))) (groups props).

(** Every observer that is observing something is recorded in
    [observerRefs], so that the next clean-up reaches it. *)
Definition tracked (st : State) : Prop :=
  ∀ h, observing st h = true → Some h ∈ (observerRefs st).*2.

(** ** The component as a machine *)

(** The events delivered to the component, with what the browser and the
    parent supply at that moment. *)
Inductive Event : Type :=
| Mount (props : GroupNavigationProps) (page : Page)
| GroupsChanged (props : GroupNavigationProps) (page : Page)
| Resize (page : Page)
| Scroll (props : GroupNavigationProps) (page : Page)
| Intersection (group : GroupWithSites) (entries : list IntersectionObserverEntry)
| Click (props : GroupNavigationProps) (page : Page) (groupId : string)
| MouseEnter (groupId : string)
| MouseLeave (groupId : string).

Definition handle (e : Event) : M unit :=
  match e with
  | Mount props page => mount props page
  | GroupsChanged props page => groups_changed props page
  | Resize page => updateNavPosition page
  | Scroll props page => handleScroll props page
  | Intersection group entries => observer_callback group entries
  | Click props page groupId => handleNavClick props page groupId
  | MouseEnter groupId => handleMouseEnter groupId
  | MouseLeave groupId => handleMouseLeave groupId
  end.

(** The data model takes group ids to be unique within a list. *)
Definition unique_ids (e : Event) : Prop :=
  match e with
  | Mount props _ | GroupsChanged props _ => NoDup (id <$> groups props)
  | _ => True
  end.

Inductive reachable : State → Prop :=
| reachable_initial : reachable initial_state
| reachable_handle e st :
    reachable st → unique_ids e → reachable (exec (handle e) st).

(** ** Reading traces *)

Definition pin_notifications (t : list Call) : list bool :=
  omap (λ c, match c with CallOnPinChange pinned => Some pinned | _ => None end) t.

Definition group_clicks (t : list Call) : list JS.number :=
  omap (λ c, match c with CallOnGroupClick n => Some n | _ => None end) t.

Definition scroll_targets (t : list Call) : list Z :=
  omap (λ c, match c with CallScrollTo y => Some y | _ => None end) t.

Definition created_observers (t : list Call) : list nat :=
  omap (λ c, match c with CallNewObserver h => Some h | _ => None end) t.

(** ** Statements about pinning *)

(** The pin state the scroll rule assigns on [page]. *)
Definition pinned_at (page : Page) (st : State) : bool :=
  scrollY page >? firstGroupTop page st.

(** The successive changes of a boolean that starts as [s] and then takes
    the values [bs]. *)
Fixpoint transitions (s : bool) (bs : list bool) : list bool :=
  match bs with
  | [] => []
  | b :: bs' => if Bool.eqb b s then transitions s bs' else b :: transitions b bs'
  end.

(** One scroll evaluation sets the pin state by the threshold rule, the
    threshold coming from the live marker or else from [navPosition.top]. *)
Definition pin_rule (props : GroupNavigationProps) (page : Page) (st : State) : Prop :=
  let st' := exec (handleScroll props page) st in
  let anchorTop := firstGroupTop page st in
  (isSticky st' = true ↔ scrollY page > anchorTop) ∧
  (isSticky st' = false ↔ scrollY page <= anchorTop) ∧
  (∀ marker, getElementById page !! "first-group-marker" = Some marker →
             anchorTop = rect_top marker + scrollY page) ∧
  (getElementById page !! "first-group-marker" = None →
   anchorTop = top (navPosition st)).

(** One scroll evaluation notifies the parent exactly when [isPinned]
    ([undefined] counting as [false]) differs from the state the rule
    assigns, a listener being registered. *)
Definition notify_rule (props : GroupNavigationProps) (page : Page) (st : State) : Prop :=
  let t := trace (handleScroll props page) st in
  (truthy (isPinned props) = pinned_at page st → pin_notifications t = []) ∧
  (truthy (isPinned props) ≠ pinned_at page st → onPinChange props = true →
   t = [CallOnPinChange (pinned_at page st)]).

(** The notifications of a run over [pages] are the changes of the pin
    state along [pages], one notification per change. *)
Definition notifies_transitions (run : M unit) (pages : list Page) (st : State) : Prop :=
  pin_notifications (trace run st)
  = transitions (isSticky st) ((λ page, pinned_at page st) <$> pages).

(** ** Statements about selection and the empty list *)

(** A click on an id that does not decode to a number notifies nobody. *)
Definition malformed_not_emitted (props : GroupNavigationProps) (page : Page)
    (groupId : string) (st : State) : Prop :=
  JS.parseInt (JS.replace "group-" "" groupId) = JS.NaN →
  group_clicks (trace (handleNavClick props page groupId) st) = [].

(** With an empty list nothing at all runs when the component mounts. *)
Definition inert_when_empty (props : GroupNavigationProps) (page : Page) (st : State)
  : Prop :=
  groups props = [] →
  GroupNavigation props page st = None ∧
  created_observers (trace (mount props page) st) = [] ∧
  trace (mount props page) st = [].

(** ** Decimal numerals *)

(** The value of the numeral [d] read after the digits that gave [acc]. *)
Fixpoint uint_value (d : Decimal.uint) (acc : Z) : Z :=
  match d with
  | Decimal.Nil => acc
  | Decimal.D0 d' => uint_value d' (acc * 10 + 0)
  | Decimal.D1 d' => uint_value d' (acc * 10 + 1)
  | Decimal.D2 d' => uint_value d' (acc * 10 + 2)
  | Decimal.D3 d' => uint_value d' (acc * 10 + 3)
  | Decimal.D4 d' => uint_value d' (acc * 10 + 4)
  | Decimal.D5 d' => uint_value d' (acc * 10 + 5)
  | Decimal.D6 d' => uint_value d' (acc * 10 + 6)
  | Decimal.D7 d' => uint_value d' (acc * 10 + 7)
  | Decimal.D8 d' => uint_value d' (acc * 10 + 8)
  | Decimal.D9 d' => uint_value d' (acc * 10 + 9)
  end.

(** ** Functional description of the observer effect *)

(** [st] with its observer store and [observerRefs] replaced. *)
Definition with_observers (os : list IntersectionObserver)
    (refs : list (string * option nat)) (st : State) : State :=
  {| activeGroupId := activeGroupId st; isSticky := isSticky st;
     navPosition := navPosition st; tooltipOpen := tooltipOpen st;
     observerRefs := refs; observers := os |}.

(** The observers an [observerRefs] object refers to. *)
Definition handles (refs : list (string * option nat)) : list nat :=
  omap (λ observer, observer) refs.*2.

(** The store after the observers [hs] were disconnected. *)
Definition disconnected (hs : list nat) (os : list IntersectionObserver)
  : list IntersectionObserver :=
  foldl (λ os h, alter cleared h os) os hs.

(** The observer the effect sets up for [group]. *)
Definition observer_of (group : GroupWithSites) : IntersectionObserver :=
  {| observer_group := group; observer_targets := [group_key (id group)] |}.

(** [observerRefs] after the observers numbered from [n] were recorded for
    [gs], and the calls made in creating them. *)
Fixpoint registered (n : nat) (refs : list (string * option nat))
    (gs : list GroupWithSites) : list (string * option nat) :=
  match gs with
  | [] => refs
  | g :: gs' => registered (S n) (assign (group_key (id g)) (Some n) refs) gs'
  end.

Fixpoint creation_calls (n : nat) (gs : list GroupWithSites) : list Call :=
  match gs with
  | [] => []
  | g :: gs' =>
      CallNewObserver n :: CallObserve n (group_key (id g)) :: creation_calls (S n) gs'
  end.


(** ** Concrete scenarios *)

(** A document whose marker and first section start 500px down, with two
    further sections at 900px and 1000px, scrolled to [y]; the navigator is
    mounted. *)
Definition scenario_page (y : Z) : Page := {|
  scrollY := y;
  getElementById :=
    {[ "first-group-marker" := {| rect_top := 500 - y; rect_left := 0; rect_height := 0 |};
       "group-1" := {| rect_top := 500 - y; rect_left := 160; rect_height := 400 |};
       "group-2" := {| rect_top := 900 - y; rect_left := 160; rect_height := 100 |};
       "group-3" := {| rect_top := 1000 - y; rect_left := 160; rect_height := 700 |} ]};
  navRef := Some {| rect_top := 500 - y; rect_left := 40; rect_height := 80 |};
  firstGroupRef := Some {| rect_top := 500 - y; rect_left := 0; rect_height := 0 |};
  isMobile := false;
|}.

(** The page around a component that rendered nothing: no marker, no
    navigator container, no section. *)
Definition unmounted_page (y : Z) : Page := {|
  scrollY := y;
  getElementById := ∅;
  navRef := None;
  firstGroupRef := None;
  isMobile := false;
|}.

Definition scenario_groups : list GroupWithSites :=
  [ {| id := 1; name := "Team" |}; {| id := 2; name := "Docs" |};
    {| id := 3; name := "Tools" |} ].

(** A parent that listens to both callbacks; [flag] is what it passes as
    [isPinned]. *)
Definition scenario_props (flag : option bool) : GroupNavigationProps := {|
  groups := scenario_groups;
  isPinned := flag;
  onPinChange := true;
  onGroupClick := true;
|}.

Definition empty_props (flag : option bool) : GroupNavigationProps := {|
  groups := [];
  isPinned := flag;
  onPinChange := true;
  onGroupClick := true;
|}.

(** The component after it was measured at the top of the document and
    then pinned. *)
Definition pinned_state : State := {|
  activeGroupId := Some "group-1";
  isSticky := true;
  navPosition := {| top := 500; left := 40; height := 80 |};
  tooltipOpen := {[ "group-3" := true ]};
  observerRefs := [];
  observers := [];
|}.

(** A later list: group 2 first, a group 4 whose element is not in the
    document, then group 1. *)
Definition reordered_props : GroupNavigationProps := {|
  groups := [ {| id := 2; name := "Docs" |}; {| id := 4; name := "Notes" |};
              {| id := 1; name := "Team" |} ];
  isPinned := None;
  onPinChange := true;
  onGroupClick := true;
|}.

(** The component once mounted on the scenario page. *)
Definition mounted_state : State :=
  exec (mount (scenario_props None) (scenario_page 0)) initial_state.

(** ** Sequences of events *)

(** The events [es] handled one after the other. *)
Definition run (es : list Event) : M unit := forEach es handle.

(** What an event writes into [tooltipOpen], if anything. *)
Definition hover_of (e : Event) : option (string * bool) :=
  match e with
  | MouseEnter groupId => Some (groupId, true)
  | MouseLeave groupId => Some (groupId, false)
  | Click _ _ groupId => Some (groupId, false)
  | _ => None
  end.

(** The flag the last event of [es] that concerns [key] writes for it. *)
Fixpoint last_hover (key : string) (es : list Event) : option bool :=
  match es with
  | [] => None
  | e :: es' =>
      match last_hover key es' with
      | Some b => Some b
      | None =>
          match hover_of e with
          | Some (k, b) => if decide (k = key) then Some b else None
          | None => None
          end
      end
  end.

(** The [open] prop given to the tooltip of [key]:
    [tooltipOpen[key] || false]. *)
Definition tooltip_open (st : State) (key : string) : bool :=
  default false (tooltipOpen st !! key).

(** The group of the last delivery in [ds] that has an intersecting entry. *)
Fixpoint last_entered (ds : list (GroupWithSites * list IntersectionObserverEntry))
  : option GroupWithSites :=
  match ds with
  | [] => None
  | d :: ds' =>
      match last_entered ds' with
      | Some group => Some group
      | None => if existsb isIntersecting d.2 then Some d.1 else None
      end
  end.

(** The entries recorded in an empty [observerRefs] for the observers
    numbered from [n] set up for [gs]. *)
Fixpoint recorded (n : nat) (gs : list GroupWithSites) : list (string * option nat) :=
  match gs with
  | [] => []
  | g :: gs' => (group_key (id g), Some n) :: recorded (S n) gs'
  end.

(** Every observer in the store observes nothing or the element of the
    group its callback was made for. *)
Definition well_targeted (st : State) : Prop :=
  ∀ h o, observers st !! h = Some o →
         observer_targets o = [] ∨
         observer_targets o = [group_key (id (observer_group o))].

(** Calls that concern timers, listeners and observers only. *)
Definition housekeeping (c : Call) : Prop :=
  match c with
  | CallOnPinChange _ | CallOnGroupClick _ | CallScrollTo _ => False
  | _ => True
  end.

(** The mounted component after the section of group 2 entered the band. *)
Definition entered_state : State :=
  exec (handle (Intersection {| id := 2; name := "Docs" |}
                             [{| isIntersecting := true |}]))
       mounted_state.

(** * Proofs *)

(** ** Decoding a derived element id *)

Lemma fold_digits_prefix d acc :
  fold_left (λ a x, a * 10 + x) (JS.digits_prefix 10 (NilEmpty.string_of_uint d)) acc
  = uint_value d acc.
Proof.
  revert acc. induction d; intros acc; cbn; try apply IHd. reflexivity.
Qed.

Lemma uint_value_of_uint_acc d acc :
  uint_value d (Z.pos acc) = Z.pos (Pos.of_uint_acc d acc).
Proof.
  revert acc. induction d; intros acc; cbn [uint_value Pos.of_uint_acc];
    [reflexivity | rewrite <- IHd; f_equal; lia ..].
Qed.

Lemma uint_value_of_uint d : uint_value d 0 = Z.of_uint d.
Proof.
  unfold Z.of_uint.
  induction d; cbn [uint_value Pos.of_uint]; try exact IHd; try reflexivity.
  all: exact (uint_value_of_uint_acc d _).
Qed.

Lemma parseInt_string_of_uint d :
  d ≠ Decimal.Nil →
  JS.parseInt (NilEmpty.string_of_uint d) = JS.Int (Z.of_uint d) ∧
  JS.parseInt (String "-" (NilEmpty.string_of_uint d)) = JS.Int (- Z.of_uint d).
Proof.
  intros Hd. rewrite <- uint_value_of_uint. rewrite <- fold_digits_prefix.
  set (f := λ a x : Z, a * 10 + x).
  assert (JS.parseInt (NilEmpty.string_of_uint d)
          = JS.Int (1 * fold_left f (JS.digits_prefix 10 (NilEmpty.string_of_uint d)) 0)
          ∧ JS.parseInt (String "-" (NilEmpty.string_of_uint d))
          = JS.Int (-1 * fold_left f (JS.digits_prefix 10 (NilEmpty.string_of_uint d)) 0))
    as [-> ->].
  { destruct d as [|d|d|d|d|d|d|d|d|d|d]; [done | ..].
    1: destruct d.
    all: split; reflexivity. }
  split; f_equal; lia.
Qed.

Lemma parseInt_to_string n : JS.parseInt (JS.to_string n) = JS.Int n.
Proof.
  rewrite <- (DecimalZ.of_to n) at 2.
  unfold JS.to_string. destruct n as [|p|p]; [reflexivity | ..];
    cbn [Z.to_int NilZero.string_of_int Z.of_int];
    pose proof (Unsigned.to_uint_nonnil p) as Hp;
    unfold NilZero.string_of_uint;
    destruct (Pos.to_uint p) eqn:E; try done;
    rewrite <- E in *; apply parseInt_string_of_uint; done.
Qed.

Lemma replace_group_key n : JS.replace "group-" "" (group_key n) = JS.to_string n.
Proof.
  unfold group_key. generalize (JS.to_string n) as s. intros s.
  reflexivity.
Qed.

Lemma decode_group_key n :
  JS.parseInt (JS.replace "group-" "" (group_key n)) = JS.Int n.
Proof. rewrite replace_group_key. apply parseInt_to_string. Qed.

Lemma group_key_inj : Inj (=) (=) group_key.
Proof.
  intros m n H. apply (f_equal (λ s, JS.parseInt (JS.replace "group-" "" s))) in H.
  rewrite !decode_group_key in H. congruence.
Qed.

(** ** Running the monad *)

Lemma exec_bind {A B} (m : M A) (f : A → M B) st :
  exec (m ≫= f) st = exec (f (m st).1.1) (exec m st).
Proof.
  unfold exec, mbind, M_bind. destruct (m st) as [[x st1] t1]; cbn.
  destruct (f x st1) as [[y st2] t2]; reflexivity.
Qed.

Lemma trace_bind {A B} (m : M A) (f : A → M B) st :
  trace (m ≫= f) st = trace m st ++ trace (f (m st).1.1) (exec m st).
Proof.
  unfold exec, trace, mbind, M_bind. destruct (m st) as [[x st1] t1]; cbn.
  destruct (f x st1) as [[y st2] t2]; reflexivity.
Qed.

Lemma bind_run {A B} (m : M A) (f : A → M B) st x st1 t1 :
  m st = (x, st1, t1) →
  (m ≫= f) st = let '(y, st2, t2) := f x st1 in (y, st2, t1 ++ t2).
Proof. intros H. unfold mbind, M_bind. rewrite H. reflexivity. Qed.

Lemma exec_forEach_cons {A} (x : A) l (f : A → M unit) st :
  exec (forEach (x :: l) f) st = exec (forEach l f) (exec (f x) st).
Proof. cbn [forEach]. apply exec_bind. Qed.


Lemma trace_forEach_cons {A} (x : A) l (f : A → M unit) st :
  trace (forEach (x :: l) f) st = trace (f x) st ++ trace (forEach l f) (exec (f x) st).
Proof. cbn [forEach]. apply trace_bind. Qed.

(** ** One scroll evaluation *)

Lemma handleScroll_unmounted props page st :
  navRef page = None → handleScroll props page st = ((), st, []).
Proof. intros H. unfold handleScroll. rewrite H. reflexivity. Qed.

Lemma handleScroll_mounted props page st :
  is_Some (navRef page) →
  handleScroll props page st
  = ((), exec (setIsSticky (pinned_at page st)) st,
     if onPinChange props && xorb (truthy (isPinned props)) (pinned_at page st)
     then [CallOnPinChange (pinned_at page st)] else []).
Proof.
  intros [nav H]. unfold handleScroll, pinned_at. rewrite H.
  cbv [mbind M_bind get].
  destruct (scrollY page >? firstGroupTop page st);
    destruct (onPinChange props), (truthy (isPinned props)); reflexivity.
Qed.

(** C1, as amended. With the navigator container mounted, a scroll
    evaluation makes the state Pinned exactly when [window.scrollY] is
    strictly above the anchor top and Floating when it is at or below it; the
    anchor top is the document position of the live marker when the marker is
    found and the stored [navPosition.top] otherwise. *)
Theorem handleScroll_pin_rule props page st :
  is_Some (navRef page) → pin_rule props page st.
Proof.
  intros Hnav. unfold pin_rule, exec. rewrite handleScroll_mounted by done.
  cbn. unfold pinned_at.
  destruct (Z.gtb_spec (scrollY page) (firstGroupTop page st));
    (split; [|split; [|split]]);
    try (split; [intros ?; (lia || done) | intros ?; (lia || done)]).
  all: unfold firstGroupTop; try (intros marker ->; reflexivity);
    try (intros ->; reflexivity).
Qed.

Lemma handleScroll_pin_rule_witness :
  is_Some (navRef (scenario_page 600)) ∧
  pin_rule (scenario_props (Some false)) (scenario_page 600) initial_state.
Proof.
  assert (is_Some (navRef (scenario_page 600))) as H by (cbn; eauto).
  split; [exact H | apply (handleScroll_pin_rule _ _ _ H)].
Defined.

(** C1 as stated fails when the container is not mounted: the handler
    returns at its guard, so a pinned navigator stays pinned although the
    page is scrolled back to the top. *)
Lemma unmounted_scroll_keeps_pinned :
  ¬ pin_rule (empty_props (Some true)) (unmounted_page 0) pinned_state.
Proof.
  intros (_ & [_ H] & _).
  assert (isSticky pinned_state = false) as E; [|discriminate E].
  apply H. vm_compute. discriminate.
Qed.

(** ** Notifying the parent *)

(** C3, as amended. With the navigator container mounted: if [isPinned]
    ([undefined] counting as [false]) already equals the state the scroll
    rule assigns, [onPinChange] is not invoked; when they differ and a
    listener is registered, it is invoked once, with the new state, and
    nothing else is called. *)
Theorem handleScroll_notify_rule props page st :
  is_Some (navRef page) → notify_rule props page st.
Proof.
  intros Hnav. unfold notify_rule, trace. rewrite handleScroll_mounted by done.
  cbn. split.
  - intros ->. rewrite xorb_nilpotent, andb_false_r. reflexivity.
  - intros Hne ->. cbn.
    destruct (truthy (isPinned props)), (pinned_at page st); done.
Qed.

Lemma handleScroll_notify_rule_witness :
  is_Some (navRef (scenario_page 600)) ∧
  notify_rule (scenario_props (Some false)) (scenario_page 600) initial_state.
Proof.
  assert (is_Some (navRef (scenario_page 600))) as H by (cbn; eauto).
  split; [exact H | apply (handleScroll_notify_rule _ _ _ H)].
Defined.

(** C3 as stated fails when the container is not mounted: the parent holds
    [isPinned = true], the page is at the top, so the rule assigns Floating,
    and yet the listener is not told. *)
Lemma unmounted_scroll_skips_notification :
  ¬ notify_rule (empty_props (Some true)) (unmounted_page 0) pinned_state.
Proof.
  intros [_ H].
  assert (@nil Call = [CallOnPinChange false]) as E; [|discriminate E].
  apply H; [vm_compute; discriminate | reflexivity].
Qed.

Lemma transitions_same s bs :
  Forall (λ b, b = s) bs → transitions s bs = [].
Proof.
  induction 1 as [|b bs -> _ IH]; cbn; [done|].
  rewrite eqb_reflx. exact IH.
Qed.

Lemma transitions_flip s bs :
  bs ≠ [] → Forall (λ b, b = negb s) bs → transitions s bs = [negb s].
Proof.
  intros Hne H. destruct H as [|b bs -> H]; [done|]. cbn.
  destruct s; cbn; f_equal; apply transitions_same; exact H.
Qed.

Lemma exec_handleScroll_mounted props page st :
  is_Some (navRef page) →
  exec (handleScroll props page) st = exec (setIsSticky (pinned_at page st)) st.
Proof. intros H. unfold exec at 1. rewrite handleScroll_mounted by done. reflexivity. Qed.

Lemma trace_handleScroll_mounted props page st :
  is_Some (navRef page) →
  trace (handleScroll props page) st
  = if onPinChange props && xorb (truthy (isPinned props)) (pinned_at page st)
    then [CallOnPinChange (pinned_at page st)] else [].
Proof. intros H. unfold trace. rewrite handleScroll_mounted by done. reflexivity. Qed.

Lemma pin_notifications_app t1 t2 :
  pin_notifications (t1 ++ t2) = pin_notifications t1 ++ pin_notifications t2.
Proof. apply omap_app. Qed.

Lemma in_step_notifications evs st :
  in_step evs st →
  notifies_transitions (scroll_evaluations evs) evs.*2 st.
Proof.
  unfold notifies_transitions, scroll_evaluations. revert st.
  induction evs as [|[props page] evs IH]; intros st Hs; [reflexivity|].
  destruct Hs as (Hl & Hp & Hnav & Hs). cbn [fst snd] in *.
  rewrite trace_forEach_cons. cbn [fst snd].
  rewrite pin_notifications_app, (IH _ Hs).
  rewrite exec_handleScroll_mounted, trace_handleScroll_mounted by done.
  rewrite !fmap_cons. cbn [transitions fst snd]. rewrite Hl, Hp. cbn [andb].
  set (st1 := exec (setIsSticky (pinned_at page st)) st).
  assert (isSticky st1 = pinned_at page st) as Hs1 by reflexivity.
  assert ((λ q, pinned_at q st1) <$> evs.*2 = (λ q, pinned_at q st) <$> evs.*2)
    as Hq by reflexivity.
  clearbody st1. rewrite Hs1, Hq.
  destruct (pinned_at page st), (isSticky st); reflexivity.
Qed.

(** C2, as amended. The notification is deduplicated against the
    [isPinned] the scroll listener holds.  When every scroll evaluation is
    made, with the container mounted and a listener to notify, by a scroll
    listener whose [isPinned] is the pin state of that moment, [onPinChange]
    fires exactly at the changes of the pin state: never while the scroll
    position stays on the side of the current state, once with [true] when a
    Floating navigator is scrolled past the anchor top and kept there, once
    with [false] when a Pinned one is scrolled back and kept there. *)
Theorem in_step_scroll_fires_on_change evs st :
  in_step evs st →
  let pages := evs.*2 in
  let fired := pin_notifications (trace (scroll_evaluations evs) st) in
  notifies_transitions (scroll_evaluations evs) pages st ∧
  (Forall (λ page, pinned_at page st = isSticky st) pages → fired = []) ∧
  (pages ≠ [] → isSticky st = false →
   Forall (λ page, pinned_at page st = true) pages → fired = [true]) ∧
  (pages ≠ [] → isSticky st = true →
   Forall (λ page, pinned_at page st = false) pages → fired = [false]).
Proof.
  intros Hs pages fired.
  pose proof (in_step_notifications evs st Hs) as H.
  split; [exact H|]. unfold notifies_transitions in H. subst fired pages. rewrite H.
  split; [|split].
  - intros Hf. apply transitions_same. rewrite Forall_fmap. exact Hf.
  - intros Hne -> Hf. apply (transitions_flip false).
    + destruct (evs.*2); done.
    + rewrite Forall_fmap. exact Hf.
  - intros Hne -> Hf. apply (transitions_flip true).
    + destruct (evs.*2); done.
    + rewrite Forall_fmap. exact Hf.
Qed.

Lemma in_step_scroll_fires_on_change_witness :
  let evs := [(scenario_props (Some false), scenario_page 400);
              (scenario_props (Some false), scenario_page 600);
              (scenario_props (Some true), scenario_page 700)] in
  in_step evs initial_state ∧
  pin_notifications (trace (scroll_evaluations evs) initial_state) = [true].
Proof.
  intros evs.
  assert (in_step evs initial_state) as Hs
    by (repeat (split; [first [reflexivity | cbn; eauto]|]); exact I).
  split; [exact Hs|].
  pose proof (in_step_scroll_fires_on_change evs initial_state Hs) as [H _].
  rewrite H. reflexivity.
Defined.

(** C2 as stated fails under props that do not change: a parent that
    passes the callback but not [isPinned] is notified again on every scroll
    event above the anchor top, although the pin state changed only once. *)
Lemma scroll_events_repeat_notification :
  let pages := [scenario_page 400; scenario_page 600; scenario_page 700] in
  ¬ notifies_transitions (scroll_events (scenario_props None) pages) pages initial_state.
Proof. intros pages H. vm_compute in H. discriminate H. Qed.

(** ** Selecting a section *)

Lemma handleNavClick_run props page groupId st :
  handleNavClick props page groupId st
  = ((), exec (setTooltipOpen (λ prev, <[groupId := false]> prev)) st,
     match getElementById page !! groupId with
     | Some element =>
         [CallScrollTo (rect_top element + scrollY page
                        - (if isSticky st then height (navPosition st) + 20 else 20))]
     | None => []
     end
     ++ if onGroupClick props
        then [CallOnGroupClick (JS.parseInt (JS.replace "group-" "" groupId))]
        else []).
Proof.
  unfold handleNavClick.
  destruct (getElementById page !! groupId), (onGroupClick props); reflexivity.
Qed.

(** C5. When the target element exists, exactly one scroll is issued, to
    the element's document position ([getBoundingClientRect().top +
    window.scrollY]) less [navPosition.height + 20] when pinned and less [20]
    when floating; pinned, with height 80 and the element 1000px down, the
    target is 900. *)
Theorem handleNavClick_scroll_target props page groupId st element :
  getElementById page !! groupId = Some element →
  let issued := scroll_targets (trace (handleNavClick props page groupId) st) in
  let elementTop := rect_top element + scrollY page in
  (isSticky st = true → issued = [elementTop - (height (navPosition st) + 20)]) ∧
  (isSticky st = false → issued = [elementTop - 20]) ∧
  (isSticky st = true → height (navPosition st) = 80 → elementTop = 1000 →
   issued = [900]).
Proof.
  intros He issued elementTop. subst issued elementTop.
  unfold trace. rewrite handleNavClick_run, He. cbn [snd].
  unfold scroll_targets. rewrite omap_app.
  assert (omap (λ c, match c with CallScrollTo y => Some y | _ => None end)
            (if onGroupClick props
             then [CallOnGroupClick (JS.parseInt (JS.replace "group-" "" groupId))]
             else []) = []) as -> by (destruct (onGroupClick props); reflexivity).
  cbn [omap app]. rewrite app_nil_r.
  split; [|split].
  - intros ->. reflexivity.
  - intros ->. reflexivity.
  - intros -> -> ->. reflexivity.
Qed.

Lemma handleNavClick_scroll_target_witness :
  scroll_targets
    (trace (handleNavClick (scenario_props (Some true)) (scenario_page 640) "group-3")
           pinned_state)
  = [900].
Proof.
  pose proof (handleNavClick_scroll_target
                (scenario_props (Some true)) (scenario_page 640) "group-3" pinned_state
                {| rect_top := 360; rect_left := 160; rect_height := 700 |} eq_refl)
    as (_ & _ & H).
  exact (H eq_refl eq_refl eq_refl).
Defined.

(** C7. Whatever the page holds, after [handleNavClick X] the entry of [X]
    in [tooltipOpen] is [false], and every other entry is what it was, so
    none was set to [true]. The update is the handler's first action: the
    handler is that update followed by steps that leave [tooltipOpen] alone. *)
Theorem handleNavClick_closes_tooltip props page groupId st :
  let st' := exec (handleNavClick props page groupId) st in
  tooltipOpen st' !! groupId = Some false ∧
  (∀ other, other ≠ groupId → tooltipOpen st' !! other = tooltipOpen st !! other) ∧
  (∃ rest : M unit,
     handleNavClick props page groupId
     = (setTooltipOpen (λ prev, <[groupId := false]> prev) ;; rest) ∧
     ∀ s, tooltipOpen (exec rest s) = tooltipOpen s).
Proof.
  cbn zeta. unfold exec at 1 2. rewrite handleNavClick_run. cbn.
  split; [apply lookup_insert_eq|].
  split; [intros other Hne; apply lookup_insert_ne; done|].
  eexists. split; [reflexivity|]. intros s. unfold exec.
  destruct (getElementById page !! groupId), (onGroupClick props); reflexivity.
Qed.

Lemma handleNavClick_closes_tooltip_witness :
  tooltipOpen pinned_state !! "group-3" = Some true ∧
  tooltipOpen (exec (handleNavClick (scenario_props None) (unmounted_page 0) "group-3")
                    pinned_state) !! "group-3" = Some false.
Proof.
  split; [reflexivity|].
  exact (proj1 (handleNavClick_closes_tooltip
                  (scenario_props None) (unmounted_page 0) "group-3" pinned_state)).
Defined.

(** C9, as amended. A click whose id does not decode to a number still
    notifies a registered listener, once, with [NaN]; without a listener
    nothing is emitted. *)
Theorem handleNavClick_malformed_emits_NaN props page groupId st :
  JS.parseInt (JS.replace "group-" "" groupId) = JS.NaN →
  group_clicks (trace (handleNavClick props page groupId) st)
  = if onGroupClick props then [JS.NaN] else [].
Proof.
  intros Hnan. unfold trace. rewrite handleNavClick_run, Hnan. cbn [snd].
  destruct (getElementById page !! groupId), (onGroupClick props); reflexivity.
Qed.

Lemma handleNavClick_malformed_emits_NaN_witness :
  group_clicks
    (trace (handleNavClick (scenario_props None) (scenario_page 0) "group-abc")
           initial_state)
  = [JS.NaN].
Proof.
  exact (handleNavClick_malformed_emits_NaN
           (scenario_props None) (scenario_page 0) "group-abc" initial_state eq_refl).
Defined.

(** C9 as stated fails: ["group-abc"] decodes to [NaN] and the listener is
    called all the same. *)
Lemma handleNavClick_malformed_is_emitted :
  ¬ malformed_not_emitted (scenario_props None) (scenario_page 0) "group-abc"
      initial_state.
Proof. intros H. specialize (H eq_refl). vm_compute in H. discriminate H. Qed.

(** C10. With a listener registered, a click calls [onGroupClick] once,
    whether or not the element is in the document, and the number passed is
    [parseInt] of the id with its first ["group-"] removed. On the element id
    of group [n] that number is [n]; when the element is not in the document,
    that call is all that happens. *)
Theorem handleNavClick_emits_group_id props page st :
  onGroupClick props = true →
  (∀ groupId,
     group_clicks (trace (handleNavClick props page groupId) st)
     = [JS.parseInt (JS.replace "group-" "" groupId)]) ∧
  (∀ n, JS.isSafeInteger n →
        group_clicks (trace (handleNavClick props page (group_key n)) st)
        = [JS.Int n]) ∧
  (∀ n, JS.isSafeInteger n → getElementById page !! group_key n = None →
        trace (handleNavClick props page (group_key n)) st
        = [CallOnGroupClick (JS.Int n)]).
Proof.
  intros Hl.
  assert (∀ groupId,
            group_clicks (trace (handleNavClick props page groupId) st)
            = [JS.parseInt (JS.replace "group-" "" groupId)]) as H.
  { intros groupId. unfold trace. rewrite handleNavClick_run, Hl. cbn [snd].
    destruct (getElementById page !! groupId); reflexivity. }
  split; [exact H|]. split.
  - intros n _. rewrite H, decode_group_key. reflexivity.
  - intros n _ Hn. unfold trace.
    rewrite handleNavClick_run, Hl, Hn, decode_group_key. reflexivity.
Qed.

Lemma handleNavClick_emits_group_id_witness :
  onGroupClick (scenario_props None) = true ∧
  trace (handleNavClick (scenario_props None) (unmounted_page 0) (group_key 2))
        initial_state
  = [CallOnGroupClick (JS.Int 2)].
Proof.
  split; [reflexivity|].
  pose proof (handleNavClick_emits_group_id
                (scenario_props None) (unmounted_page 0) initial_state eq_refl)
    as (_ & _ & H).
  apply (H 2); [unfold JS.isSafeInteger; lia | reflexivity].
Defined.

(** ** The observer callback *)

Lemma observer_callback_run group entries st :
  observer_callback group entries st
  = ((), (if existsb isIntersecting entries
          then exec (setActiveGroupId (Some (group_key (id group)))) st
          else st), []).
Proof.
  unfold observer_callback. revert st.
  induction entries as [|entry entries IH]; intros st; [reflexivity|].
  cbn [forEach existsb]. unfold mbind, M_bind.
  destruct (isIntersecting entry); cbn.
  - rewrite IH. destruct (existsb isIntersecting entries); reflexivity.
  - rewrite IH. reflexivity.
Qed.

Lemma observer_callback_keeps_active group entries st :
  is_Some (activeGroupId st) →
  is_Some (activeGroupId (exec (observer_callback group entries) st)).
Proof.
  intros H. unfold exec. rewrite observer_callback_run.
  destruct (existsb isIntersecting entries); cbn; eauto.
Qed.

(** ** The observers *)

Lemma alter_at_length {A} (f : A → A) (l : list A) x :
  alter f (length l) (l ++ [x]) = l ++ [f x].
Proof. induction l as [|y l IH]; cbn; [reflexivity | f_equal; exact IH]. Qed.

Lemma forEach_disconnect (l : list (option nat)) st :
  forEach l (λ observer, match observer with
                         | Some h => disconnect h
                         | None => mret ()
                         end) st
  = ((), with_observers (disconnected (omap (λ o, o) l) (observers st)) (observerRefs st) st,
     CallDisconnect <$> omap (λ o, o) l).
Proof.
  revert st. induction l as [|[h|] l IH]; intros st.
  - destruct st; reflexivity.
  - cbn [forEach]. erewrite bind_run by reflexivity. rewrite IH. reflexivity.
  - cbn [forEach]. erewrite bind_run by reflexivity. rewrite IH.
    destruct st; reflexivity.
Qed.

Lemma disconnect_all_run st :
  disconnect_all st
  = ((), with_observers (disconnected (handles (observerRefs st)) (observers st))
                        (observerRefs st) st,
     CallDisconnect <$> handles (observerRefs st)).
Proof.
  unfold disconnect_all, mbind, M_bind, get. rewrite forEach_disconnect. reflexivity.
Qed.

Lemma observe_loop_run page gs st :
  forEach gs (λ group,
    match getElementById page !! group_key (id group) with
    | Some _ =>
        observer ← new_IntersectionObserver group;
        observe observer (group_key (id group)) ;;
        refs ← get observerRefs;
        set_observerRefs (assign (group_key (id group)) (Some observer) refs)
    | None => mret ()
    end) st
  = let ps := filter (λ group, is_Some (getElementById page !! group_key (id group))) gs in
    ((), with_observers (observers st ++ (observer_of <$> ps))
                        (registered (length (observers st)) (observerRefs st) ps) st,
     creation_calls (length (observers st)) ps).
Proof.
  revert st. induction gs as [|g gs IH]; intros st.
  - cbn. rewrite app_nil_r. destruct st; reflexivity.
  - cbn [forEach]. rewrite filter_cons.
    destruct (getElementById page !! group_key (id g)) as [element|] eqn:E.
    + rewrite decide_True by eauto.
      erewrite bind_run by reflexivity. rewrite IH.
      cbn [observers observerRefs app]. rewrite alter_at_length.
      rewrite length_app, Nat.add_1_r, <- app_assoc. reflexivity.
    + rewrite decide_False by (intros [? ?]; done).
      erewrite bind_run by reflexivity. rewrite IH. destruct st; reflexivity.
Qed.


Lemma length_disconnected hs os : length (disconnected hs os) = length os.
Proof.
  revert os. induction hs as [|a hs IH]; intros os; [reflexivity|].
  cbn. unfold disconnected in IH. rewrite IH. apply length_alter.
Qed.

Lemma is_observing_cleared a os h :
  is_observing (alter cleared a os) h = true → is_observing os h = true ∧ h ≠ a.
Proof.
  unfold is_observing. destruct (decide (a = h)) as [->|Hne].
  - rewrite list_lookup_alter_eq. destruct (os !! h); cbn; discriminate.
  - rewrite list_lookup_alter_ne by done. intros H. split; [exact H | congruence].
Qed.

Lemma is_observing_disconnected hs os h :
  is_observing (disconnected hs os) h = true → is_observing os h = true ∧ h ∉ hs.
Proof.
  revert os. induction hs as [|a hs IH]; intros os H.
  - split; [exact H | apply not_elem_of_nil].
  - apply IH in H as [H Hnot]. apply is_observing_cleared in H as [H Hne].
    split; [exact H | rewrite elem_of_cons; tauto].
Qed.

Lemma tracked_handles st h :
  tracked st → observing st h = true → h ∈ handles (observerRefs st).
Proof.
  intros Ht Ho. unfold handles. apply list_elem_of_omap.
  exists (Some h). split; [apply Ht, Ho | reflexivity].
Qed.

Lemma disconnected_idle st :
  tracked st → ∀ h, is_observing (disconnected (handles (observerRefs st)) (observers st)) h = false.
Proof.
  intros Ht h. apply not_true_is_false. intros H.
  apply is_observing_disconnected in H as [H Hnot].
  apply Hnot, tracked_handles; done.
Qed.

Lemma is_observing_new os gs i :
  is_observing (os ++ (observer_of <$> gs)) (length os + i) = bool_decide (i < length gs)%nat.
Proof.
  unfold is_observing. rewrite lookup_app_r by lia.
  replace (length os + i - length os)%nat with i by lia.
  rewrite list_lookup_fmap. destruct (gs !! i) as [g|] eqn:E; cbn.
  - apply lookup_lt_Some in E. rewrite bool_decide_eq_true_2; done.
  - apply lookup_ge_None in E. rewrite bool_decide_eq_false_2; [done | lia].
Qed.

Lemma is_observing_old os l h :
  (h < length os)%nat → is_observing (os ++ l) h = is_observing os h.
Proof. intros H. unfold is_observing. rewrite lookup_app_l by done. reflexivity. Qed.

Lemma filter_none {A} (P : A → Prop) `{∀ x, Decision (P x)} (l : list A) :
  Forall (λ x, ¬ P x) l → filter P l = [].
Proof.
  induction 1 as [|x l Hx _ IH]; [reflexivity|].
  rewrite filter_cons, decide_False by done. exact IH.
Qed.

Lemma filter_all {A} (P : A → Prop) `{∀ x, Decision (P x)} (l : list A) :
  Forall P l → filter P l = l.
Proof.
  induction 1 as [|x l Hx _ IH]; [reflexivity|].
  rewrite filter_cons, decide_True by done. f_equal. exact IH.
Qed.

Lemma live_renewed os gs refs st :
  (∀ h, is_observing os h = false) →
  live (with_observers (os ++ (observer_of <$> gs)) refs st) = seq (length os) (length gs).
Proof.
  intros Hidle. unfold live, observing. cbn [observers with_observers].
  rewrite length_app, length_fmap, seq_app, filter_app.
  rewrite filter_none, filter_all; [reflexivity | |].
  - apply Forall_forall. intros h Hh. apply elem_of_seq in Hh.
    replace h with (length os + (h - length os))%nat by lia.
    rewrite is_observing_new. apply Is_true_true, bool_decide_eq_true. lia.
  - apply Forall_forall. intros h Hh. apply elem_of_seq in Hh.
    rewrite is_observing_old by lia. rewrite Hidle. intros [].
Qed.

Lemma lookup_renewed os (gs : list GroupWithSites) :
  (λ h, (os ++ (observer_of <$> gs)) !! h) <$> seq (length os) (length gs)
  = (λ group, Some (observer_of group)) <$> gs.
Proof.
  apply list_eq. intros i. rewrite !list_lookup_fmap.
  destruct (gs !! i) as [g|] eqn:E; cbn.
  - rewrite lookup_seq_lt by (apply lookup_lt_Some in E; done). cbn.
    rewrite lookup_app_r by lia.
    replace (length os + i - length os)%nat with i by lia.
    rewrite list_lookup_fmap, E. reflexivity.
  - rewrite lookup_seq_ge by (apply lookup_ge_None in E; done). reflexivity.
Qed.

Lemma elem_of_assign key v refs : (key, v) ∈ assign key v refs.
Proof.
  induction refs as [|[k w] refs IH]; cbn; [apply list_elem_of_here|].
  case_decide; [subst; apply list_elem_of_here | apply list_elem_of_further, IH].
Qed.

Lemma assign_preserves key v key' v' refs :
  (key, v) ∈ refs → key ≠ key' → (key, v) ∈ assign key' v' refs.
Proof.
  intros Hin Hne. induction refs as [|[k w] refs IH]; [by apply elem_of_nil in Hin|].
  cbn. apply elem_of_cons in Hin as [Heq|Hin].
  - inversion Heq; subst. rewrite decide_False by done. apply list_elem_of_here.
  - case_decide; apply list_elem_of_further; [exact Hin | apply IH, Hin].
Qed.

Lemma registered_preserves key v n refs gs :
  (key, v) ∈ refs → key ∉ (λ g, group_key (id g)) <$> gs →
  (key, v) ∈ registered n refs gs.
Proof.
  revert n refs. induction gs as [|g gs IH]; intros n refs Hin Hnot; [exact Hin|].
  cbn. rewrite fmap_cons, not_elem_of_cons in Hnot. destruct Hnot as [Hne Hnot].
  apply IH; [apply assign_preserves; done | exact Hnot].
Qed.

Lemma registered_lookup n refs gs i g :
  NoDup ((λ g, group_key (id g)) <$> gs) → gs !! i = Some g →
  (group_key (id g), Some (n + i)%nat) ∈ registered n refs gs.
Proof.
  revert n refs i. induction gs as [|g0 gs IH]; intros n refs i Hnd Hi; [done|].
  rewrite fmap_cons in Hnd. apply NoDup_cons in Hnd as [Hfresh Hnd].
  destruct i as [|i]; cbn in Hi |- *.
  - inversion Hi; subst. rewrite Nat.add_0_r.
    apply registered_preserves; [apply elem_of_assign | exact Hfresh].
  - replace (n + S i)%nat with (S n + i)%nat by lia. apply IH; done.
Qed.

Lemma tracked_renewed os gs refs st :
  (∀ h, is_observing os h = false) →
  NoDup ((λ g, group_key (id g)) <$> gs) →
  tracked (with_observers (os ++ (observer_of <$> gs))
                          (registered (length os) refs gs) st).
Proof.
  intros Hidle Hnd h. unfold observing. cbn [observers observerRefs with_observers].
  intros Ho. destruct (decide (h < length os)%nat) as [Hlt|Hge].
  - rewrite is_observing_old, Hidle in Ho by done. discriminate.
  - replace h with (length os + (h - length os))%nat in * by lia.
    rewrite is_observing_new in Ho. apply bool_decide_eq_true in Ho.
    apply lookup_lt_is_Some in Ho as [g Hg].
    apply list_elem_of_fmap. exists (group_key (id g), Some (length os + (h - length os))%nat).
    split; [reflexivity | apply registered_lookup; done].
Qed.



Lemma present_groups_keys props page :
  NoDup (id <$> groups props) →
  NoDup ((λ g, group_key (id g)) <$> present_groups props page).
Proof.
  intros Hnd.
  change (λ g, group_key (id g)) with (group_key ∘ id). rewrite list_fmap_compose.
  apply (@NoDup_fmap_2 _ _ group_key group_key_inj).
  eapply sublist_NoDup; [exact Hnd|].
  apply fmap_sublist, sublist_filter.
Qed.

Lemma created_observers_disconnects hs :
  created_observers (CallDisconnect <$> hs) = [].
Proof. induction hs as [|h hs IH]; [reflexivity | exact IH]. Qed.


Lemma observers_effect_run props page st :
  observers_effect props page st
  = let hs := handles (observerRefs st) in
    let os := disconnected hs (observers st) in
    let ps := present_groups props page in
    ((), with_observers (os ++ (observer_of <$> ps)) (registered (length os) [] ps) st,
     (CallDisconnect <$> hs) ++ creation_calls (length os) ps).
Proof.
  unfold observers_effect.
  erewrite bind_run by apply disconnect_all_run.
  erewrite bind_run by reflexivity.
  rewrite observe_loop_run. reflexivity.
Qed.

Lemma groups_changed_run props page st :
  groups_changed props page st
  = let hs := handles (observerRefs st) in
    let os := disconnected hs (disconnected hs (observers st)) in
    let ps := present_groups props page in
    ((), with_observers (os ++ (observer_of <$> ps)) (registered (length os) [] ps) st,
     (CallRemoveEventListener "resize" :: (CallDisconnect <$> hs)
      ++ CallSetTimeout 100 :: CallAddEventListener "resize" :: (CallDisconnect <$> hs))
     ++ creation_calls (length os) ps).
Proof.
  unfold groups_changed, navPosition_cleanup, navPosition_effect, observers_cleanup.
  erewrite bind_run by reflexivity.
  erewrite bind_run by apply disconnect_all_run.
  erewrite bind_run by (erewrite bind_run by reflexivity; reflexivity).
  rewrite observers_effect_run. cbn. rewrite <- !app_assoc. reflexivity.
Qed.

Lemma mount_run props page st :
  mount props page st
  = let hs := handles (observerRefs st) in
    let os := disconnected hs (observers st) in
    let ps := present_groups props page in
    ((), with_observers (os ++ (observer_of <$> ps)) (registered (length os) [] ps) st,
     CallSetTimeout 100 :: CallAddEventListener "resize" :: CallAddEventListener "scroll"
     :: (CallDisconnect <$> hs) ++ creation_calls (length os) ps).
Proof.
  unfold mount, navPosition_effect, scroll_effect.
  erewrite bind_run by (erewrite bind_run by reflexivity; reflexivity).
  erewrite bind_run by reflexivity.
  rewrite observers_effect_run. reflexivity.
Qed.

Lemma updateNavPosition_observers page st :
  observers (exec (updateNavPosition page) st) = observers st ∧
  observerRefs (exec (updateNavPosition page) st) = observerRefs st.
Proof.
  unfold exec, updateNavPosition.
  destruct (firstGroupRef page), (navRef page); split; reflexivity.
Qed.

Lemma handleScroll_observers props page st :
  observers (exec (handleScroll props page) st) = observers st ∧
  observerRefs (exec (handleScroll props page) st) = observerRefs st.
Proof.
  unfold exec. destruct (navRef page) as [nav|] eqn:H.
  - rewrite handleScroll_mounted by eauto. split; reflexivity.
  - rewrite handleScroll_unmounted by done. split; reflexivity.
Qed.

Lemma observer_callback_observers group entries st :
  observers (exec (observer_callback group entries) st) = observers st ∧
  observerRefs (exec (observer_callback group entries) st) = observerRefs st.
Proof.
  unfold exec. rewrite observer_callback_run.
  destruct (existsb isIntersecting entries); split; reflexivity.
Qed.

Lemma tracked_ext st st' :
  observers st' = observers st → observerRefs st' = observerRefs st →
  tracked st → tracked st'.
Proof. unfold tracked, observing. intros -> -> H. exact H. Qed.

Lemma disconnected_twice_idle st :
  tracked st →
  ∀ h, is_observing (disconnected (handles (observerRefs st))
                       (disconnected (handles (observerRefs st)) (observers st))) h
       = false.
Proof.
  intros Ht h. apply not_true_is_false. intros H.
  apply is_observing_disconnected in H as [H _].
  rewrite disconnected_idle in H by done. discriminate.
Qed.

(** In every reachable state the observers in use are those recorded in
    [observerRefs]. *)
Lemma reachable_tracked st : reachable st → tracked st.
Proof.
  induction 1 as [|e st _ IH Hu].
  - intros h. unfold observing, is_observing. cbn. discriminate.
  - destruct e as [props page|props page|page|props page|group entries
                   |props page groupId|groupId|groupId]; cbn [handle unique_ids] in *.
    + unfold exec. rewrite mount_run. cbn.
      apply tracked_renewed;
        [apply disconnected_idle, IH | apply present_groups_keys, Hu].
    + unfold exec. rewrite groups_changed_run. cbn.
      apply tracked_renewed;
        [apply disconnected_twice_idle, IH | apply present_groups_keys, Hu].
    + destruct (updateNavPosition_observers page st). eapply tracked_ext; done.
    + destruct (handleScroll_observers props page st). eapply tracked_ext; done.
    + destruct (observer_callback_observers group entries st). eapply tracked_ext; done.
    + unfold exec. rewrite handleNavClick_run. eapply tracked_ext; [..|exact IH]; done.
    + eapply tracked_ext; [..|exact IH]; done.
    + eapply tracked_ext; [..|exact IH]; done.
Qed.



(** ** The active group *)

Lemma handle_activeGroupId e st :
  (∀ group entries, e ≠ Intersection group entries) →
  activeGroupId (exec (handle e) st) = activeGroupId st.
Proof.
  intros He. unfold exec.
  destruct e as [props page|props page|page|props page|group entries
                 |props page groupId|groupId|groupId]; cbn [handle].
  - rewrite mount_run. reflexivity.
  - rewrite groups_changed_run. reflexivity.
  - unfold updateNavPosition. destruct (firstGroupRef page), (navRef page); reflexivity.
  - destruct (navRef page) as [nav|] eqn:H.
    + rewrite handleScroll_mounted by eauto. reflexivity.
    + rewrite handleScroll_unmounted by done. reflexivity.
  - destruct (He group entries eq_refl).
  - rewrite handleNavClick_run. reflexivity.
  - reflexivity.
  - reflexivity.
Qed.

(** C4. Once [activeGroupId] holds an id, no event makes it [null] again.
    The only events that write it are deliveries of intersection entries:
    entries that are all non-intersecting leave it as it is, and a delivery
    with an intersecting entry sets it to the id of the observer's group,
    whatever it held before. *)
Theorem activeGroupId_sticky :
  (∀ e st,
     is_Some (activeGroupId st) → is_Some (activeGroupId (exec (handle e) st))) ∧
  (∀ e st,
     activeGroupId (exec (handle e) st) ≠ activeGroupId st →
     ∃ group entries, e = Intersection group entries ∧
                      Exists (λ entry, isIntersecting entry = true) entries) ∧
  (∀ group entries st,
     Forall (λ entry, isIntersecting entry = false) entries →
     activeGroupId (exec (observer_callback group entries) st) = activeGroupId st) ∧
  (∀ group entries st,
     Exists (λ entry, isIntersecting entry = true) entries →
     activeGroupId (exec (observer_callback group entries) st)
     = Some (group_key (id group))).
Proof.
  assert (∀ group entries st,
            Forall (λ entry, isIntersecting entry = false) entries →
            activeGroupId (exec (observer_callback group entries) st)
            = activeGroupId st) as Hleave.
  { intros group entries st H. unfold exec. rewrite observer_callback_run.
    replace (existsb isIntersecting entries) with false; [reflexivity|].
    symmetry. apply not_true_is_false. rewrite existsb_exists.
    intros (entry & Hin & Hi). rewrite Forall_forall in H.
    apply list_elem_of_In in Hin. rewrite (H entry Hin) in Hi. discriminate. }
  split; [|split; [|split]].
  - intros e st H.
    destruct e as [| | | |group entries| | |];
      try (rewrite handle_activeGroupId by (intros ? ?; discriminate); exact H).
    apply observer_callback_keeps_active, H.
  - intros e st Hchg.
    destruct e as [| | | |group entries| | |];
      try (destruct Hchg; apply handle_activeGroupId; intros ? ?; discriminate).
    exists group, entries. split; [reflexivity|].
    destruct (decide (Exists (λ entry, isIntersecting entry = true) entries))
      as [Hex|Hnex]; [exact Hex|].
    destruct Hchg. apply Hleave. apply Forall_forall. intros entry Hin.
    apply not_true_is_false. intros Hi. apply Hnex, Exists_exists. eauto.
  - exact Hleave.
  - intros group entries st H. unfold exec. rewrite observer_callback_run.
    replace (existsb isIntersecting entries) with true; [reflexivity|].
    symmetry. rewrite existsb_exists. apply Exists_exists in H as (entry & Hin & Hi).
    exists entry. split; [apply list_elem_of_In, Hin | exact Hi].
Qed.

Lemma activeGroupId_sticky_witness :
  let group1 := {| id := 1; name := "Team" |} in
  let group2 := {| id := 2; name := "Docs" |} in
  let entered := [{| isIntersecting := true |}] in
  let left_ := [{| isIntersecting := false |}] in
  activeGroupId (exec (observer_callback group2 entered)
                      (exec (observer_callback group1 entered) initial_state))
  = Some "group-2" ∧
  activeGroupId (exec (observer_callback group1 left_) pinned_state) = Some "group-1".
Proof.
  intros group1 group2 entered left_.
  destruct activeGroupId_sticky as (_ & _ & Hleave & Henter).
  split.
  - apply (Henter group2 entered). constructor. reflexivity.
  - apply (Hleave group1 left_ pinned_state). repeat constructor.
Defined.

(** ** The empty list *)

(** C8, as amended. With an empty list the component renders nothing and
    neither mounting nor a list change creates an observer. The effects do
    run: mounting schedules the measurement, registers the [resize] and
    [scroll] listeners and disconnects the observers on record. With the
    navigator container unmounted, as it is when nothing is rendered, the
    measurement and the scroll evaluation then change no state and call
    nothing. *)
Theorem empty_list_inactive props page st :
  groups props = [] → navRef page = None →
  GroupNavigation props page st = None ∧
  created_observers (trace (mount props page) st) = [] ∧
  created_observers (trace (groups_changed props page) st) = [] ∧
  trace (mount props page) st
  = CallSetTimeout 100 :: CallAddEventListener "resize" :: CallAddEventListener "scroll"
    :: (CallDisconnect <$> handles (observerRefs st)) ∧
  updateNavPosition page st = ((), st, []) ∧
  handleScroll props page st = ((), st, []).
Proof.
  intros Hg Hnav.
  assert (present_groups props page = []) as Hp
    by (unfold present_groups; rewrite Hg; reflexivity).
  split; [unfold GroupNavigation; rewrite Hg; reflexivity|].
  unfold trace. rewrite mount_run, groups_changed_run, Hp. cbn.
  rewrite !app_nil_r.
  repeat split.
  - apply created_observers_disconnects.
  - unfold created_observers. rewrite omap_app. cbn. fold created_observers.
    rewrite !created_observers_disconnects. reflexivity.
  - unfold updateNavPosition. rewrite Hnav. destruct (firstGroupRef page); reflexivity.
  - apply handleScroll_unmounted, Hnav.
Qed.

Lemma empty_list_inactive_witness :
  GroupNavigation (empty_props None) (unmounted_page 600) pinned_state = None ∧
  handleScroll (empty_props None) (unmounted_page 600) pinned_state
  = ((), pinned_state, []).
Proof.
  pose proof (empty_list_inactive (empty_props None) (unmounted_page 600) pinned_state
                eq_refl eq_refl) as (H1 & _ & _ & _ & _ & H2).
  split; [exact H1 | exact H2].
Defined.

(** C8 as stated fails: mounting with an empty list is not a no-op, the
    effects run before the component function returns [null]. *)
Lemma mount_empty_runs_effects :
  ¬ inert_when_empty (empty_props None) (unmounted_page 0) initial_state.
Proof. intros H. destruct (H eq_refl) as (_ & _ & Ht). vm_compute in Ht. discriminate Ht. Qed.

(** * Further properties of the component *)

(** ** Measuring *)

(** X1. [updateNavPosition] calls nothing. With both refs attached it
    stores the marker's top and the container's left and height; with
    either ref missing it leaves the whole state as it is. Measuring the
    same page twice is the same as measuring it once. *)
Theorem updateNavPosition_measures page st :
  let st' := exec (updateNavPosition page) st in
  trace (updateNavPosition page) st = [] ∧
  (∀ marker nav, firstGroupRef page = Some marker → navRef page = Some nav →
     navPosition st' = {| top := rect_top marker; left := rect_left nav;
                          height := rect_height nav |}) ∧
  (firstGroupRef page = None ∨ navRef page = None → st' = st) ∧
  exec (updateNavPosition page) st' = st'.
Proof.
  cbn zeta. unfold exec, trace, updateNavPosition.
  destruct (firstGroupRef page) as [marker|], (navRef page) as [nav|]; cbn.
  all: repeat split; try done.
  all: try (intros ? ? [= <-] [= <-]; reflexivity).
  all: intros [?|?]; done.
Qed.

(** ** More on scroll evaluations *)

Lemma pinned_at_navPosition page st st' :
  navPosition st' = navPosition st → pinned_at page st' = pinned_at page st.
Proof. intros H. unfold pinned_at, firstGroupTop. rewrite H. reflexivity. Qed.

Lemma default_last_cons {A} (a b x : A) l :
  default a (last (x :: l)) = default b (last (x :: l)).
Proof.
  revert x. induction l as [|y l IH]; intros x; [reflexivity|]. exact (IH y).
Qed.

(** X2. The pin state a scroll evaluation leaves does not depend on the
    pin state before it nor on the props: two evaluations on the same page,
    with the container mounted and the same stored geometry, leave the same
    pin state. After any sequence of such evaluations the pin state is the
    one the rule assigns on the last page. *)
Theorem handleScroll_memoryless props pages st :
  Forall (λ page, is_Some (navRef page)) pages →
  (∀ page props' st', page ∈ pages → navPosition st' = navPosition st →
     isSticky (exec (handleScroll props' page) st')
     = isSticky (exec (handleScroll props page) st)) ∧
  isSticky (exec (scroll_events props pages) st)
  = default (isSticky st) (last ((λ page, pinned_at page st) <$> pages)).
Proof.
  intros Hm. split.
  - intros page props' st' Hin Hnp. rewrite Forall_forall in Hm.
    rewrite !exec_handleScroll_mounted by (apply Hm, Hin). cbn.
    apply pinned_at_navPosition, Hnp.
  - unfold scroll_events. revert st.
    induction Hm as [|page pages Hnav _ IH]; intros st; [reflexivity|].
    rewrite exec_forEach_cons, IH, exec_handleScroll_mounted by done.
    cbn [isSticky exec setIsSticky modify fst snd].
    assert ((λ q, pinned_at q (exec (setIsSticky (pinned_at page st)) st)) <$> pages
            = (λ q, pinned_at q st) <$> pages) as Hq by reflexivity.
    cbn [exec setIsSticky modify fst snd] in Hq. rewrite Hq.
    destruct pages as [|page' pages]; [reflexivity|].
    rewrite !fmap_cons. cbn [last]. apply default_last_cons.
Qed.

Lemma handleScroll_memoryless_witness :
  isSticky (exec (scroll_events (scenario_props None)
                    [scenario_page 600; scenario_page 400; scenario_page 501])
                 initial_state)
  = true.
Proof.
  assert (Forall (λ page, is_Some (navRef page))
            [scenario_page 600; scenario_page 400; scenario_page 501]) as Hm
    by (repeat constructor; cbn; eauto).
  rewrite (proj2 (handleScroll_memoryless (scenario_props None) _ initial_state Hm)).
  reflexivity.
Defined.

(** X3. For integer pixel values whose sum is a safe integer, so that the
    handler's addition is exact: while the marker element is in the document
    and the container is mounted, a scroll evaluation pins the navigator
    exactly when the marker's top edge is above the top of the viewport,
    whatever the stored geometry is. *)
Theorem handleScroll_marker_above_viewport props page st marker :
  is_Some (navRef page) →
  getElementById page !! "first-group-marker" = Some marker →
  JS.isSafeInteger (rect_top marker) → JS.isSafeInteger (scrollY page) →
  JS.isSafeInteger (rect_top marker + scrollY page) →
  isSticky (exec (handleScroll props page) st) = true ↔ rect_top marker < 0.
Proof.
  intros Hnav Hm _ _ _. rewrite exec_handleScroll_mounted by done. cbn.
  unfold pinned_at, firstGroupTop. rewrite Hm.
  destruct (Z.gtb_spec (scrollY page) (rect_top marker + scrollY page));
    split; intros; (lia || done).
Qed.

Lemma handleScroll_marker_above_viewport_witness :
  isSticky (exec (handleScroll (scenario_props None) (scenario_page 501)) initial_state)
  = true.
Proof.
  apply (handleScroll_marker_above_viewport
           (scenario_props None) (scenario_page 501) initial_state
           {| rect_top := -1; rect_left := 0; rect_height := 0 |}).
  - cbn. eauto.
  - reflexivity.
  - unfold JS.isSafeInteger. cbn. lia.
  - unfold JS.isSafeInteger. cbn. lia.
  - unfold JS.isSafeInteger. cbn. lia.
  - cbn. lia.
Defined.

(** X4. Under props that do not change and with the container mounted, a
    sequence of scroll events calls nothing but [onPinChange], once for each
    event on which the rule assigns a state different from [isPinned]
    ([undefined] counting as [false]), in order; without a listener it calls
    nothing. *)
Theorem scroll_events_fixed_props props pages st :
  Forall (λ page, is_Some (navRef page)) pages →
  trace (scroll_events props pages) st
  = if onPinChange props
    then CallOnPinChange
           <$> filter (λ b, b ≠ truthy (isPinned props))
                      ((λ page, pinned_at page st) <$> pages)
    else [].
Proof.
  intros Hm. unfold scroll_events. revert st.
  induction Hm as [|page pages Hnav _ IH]; intros st.
  - destruct (onPinChange props); reflexivity.
  - rewrite trace_forEach_cons, IH, exec_handleScroll_mounted,
      trace_handleScroll_mounted by done.
    rewrite fmap_cons, filter_cons.
    assert ((λ q, pinned_at q (exec (setIsSticky (pinned_at page st)) st)) <$> pages
            = (λ q, pinned_at q st) <$> pages) as -> by reflexivity.
    destruct (onPinChange props); [|reflexivity].
    destruct (truthy (isPinned props)), (pinned_at page st); cbn;
      case_decide; done.
Qed.

Lemma scroll_events_fixed_props_witness :
  trace (scroll_events (scenario_props (Some true))
           [scenario_page 600; scenario_page 400; scenario_page 300])
        initial_state
  = [CallOnPinChange false; CallOnPinChange false].
Proof.
  assert (Forall (λ page, is_Some (navRef page))
            [scenario_page 600; scenario_page 400; scenario_page 300]) as Hm
    by (repeat constructor; cbn; eauto).
  rewrite (scroll_events_fixed_props (scenario_props (Some true)) _ initial_state Hm).
  reflexivity.
Defined.

(** ** More on selection *)

(** X5. A click on an id whose element is not in the document issues no
    scroll: all it calls is [onGroupClick], if the parent passed it. *)
Theorem handleNavClick_absent_element props page groupId st :
  getElementById page !! groupId = None →
  scroll_targets (trace (handleNavClick props page groupId) st) = [] ∧
  trace (handleNavClick props page groupId) st
  = if onGroupClick props
    then [CallOnGroupClick (JS.parseInt (JS.replace "group-" "" groupId))]
    else [].
Proof.
  intros He. unfold trace. rewrite handleNavClick_run, He. cbn [snd app].
  destruct (onGroupClick props); split; reflexivity.
Qed.

Lemma handleNavClick_absent_element_witness :
  trace (handleNavClick (scenario_props None) (unmounted_page 0) "group-2") pinned_state
  = [CallOnGroupClick (JS.Int 2)].
Proof.
  exact (proj2 (handleNavClick_absent_element
                  (scenario_props None) (unmounted_page 0) "group-2" pinned_state
                  eq_refl)).
Defined.

(** ** Hovering *)

Lemma handle_tooltipOpen e st :
  tooltipOpen (exec (handle e) st)
  = match hover_of e with
    | Some (key, b) => <[key := b]> (tooltipOpen st)
    | None => tooltipOpen st
    end.
Proof.
  unfold exec.
  destruct e as [props page|props page|page|props page|group entries
                 |props page groupId|groupId|groupId]; cbn [handle hover_of].
  - rewrite mount_run. reflexivity.
  - rewrite groups_changed_run. reflexivity.
  - unfold updateNavPosition. destruct (firstGroupRef page), (navRef page); reflexivity.
  - destruct (navRef page) as [nav|] eqn:H.
    + rewrite handleScroll_mounted by eauto. reflexivity.
    + rewrite handleScroll_unmounted by done. reflexivity.
  - rewrite observer_callback_run.
    destruct (existsb isIntersecting entries); reflexivity.
  - rewrite handleNavClick_run. reflexivity.
  - reflexivity.
  - reflexivity.
Qed.

(** X6. After any sequence of events, the tooltip of an element id is open
    exactly when the last event that concerned that id was the pointer
    entering its button; a pointer leaving or a click closes it, events on
    other ids and all other events leave it as it was, and an id no event
    ever concerned shows its tooltip closed. *)
Theorem tooltip_follows_last_hover es st key :
  tooltip_open (exec (run es) st) key
  = default (tooltip_open st key) (last_hover key es) ∧
  (tooltipOpen st !! key = None → last_hover key es = None →
   tooltip_open (exec (run es) st) key = false).
Proof.
  assert (tooltip_open (exec (run es) st) key
          = default (tooltip_open st key) (last_hover key es)) as H.
  { unfold run. revert st. induction es as [|e es IH]; intros st; [reflexivity|].
    rewrite exec_forEach_cons, IH. cbn [last_hover].
    destruct (last_hover key es) as [b|]; [reflexivity|].
    unfold tooltip_open. rewrite handle_tooltipOpen.
    destruct (hover_of e) as [[k b]|]; [|reflexivity].
    case_decide as Hk.
    - subst k. rewrite lookup_insert_eq. reflexivity.
    - rewrite lookup_insert_ne by done. reflexivity. }
  split; [exact H|]. intros Hnone Hlast. rewrite H, Hlast.
  unfold tooltip_open. rewrite Hnone. reflexivity.
Qed.

Lemma tooltip_follows_last_hover_witness :
  tooltip_open
    (exec (run [MouseEnter "group-1"; MouseEnter "group-2";
                Click (scenario_props None) (scenario_page 0) "group-2";
                Scroll (scenario_props None) (scenario_page 600)])
          initial_state) "group-3"
  = false.
Proof.
  apply (proj2 (tooltip_follows_last_hover _ initial_state "group-3"));
    reflexivity.
Defined.

(** ** More on the active group *)

(** X7. After any sequence of deliveries of intersection entries, the
    active id is that of the group of the last delivery that had an
    intersecting entry; if no delivery had one, it is what it was. *)
Theorem activeGroupId_last_entered ds st :
  activeGroupId (exec (forEach ds (λ d, observer_callback d.1 d.2)) st)
  = match last_entered ds with
    | Some group => Some (group_key (id group))
    | None => activeGroupId st
    end.
Proof.
  revert st. induction ds as [|[group entries] ds IH]; intros st; [reflexivity|].
  rewrite exec_forEach_cons, IH. cbn [last_entered fst snd].
  destruct (last_entered ds); [reflexivity|].
  unfold exec. rewrite observer_callback_run.
  destruct (existsb isIntersecting entries); reflexivity.
Qed.

(** X8. In every reachable state the active id is [null] or the element id
    derived from some integer, so that decoding it never gives [NaN]. *)
Theorem reachable_activeGroupId_derived st :
  reachable st →
  (activeGroupId st = None ∨ ∃ n, activeGroupId st = Some (group_key n)) ∧
  (∀ key, activeGroupId st = Some key →
          JS.parseInt (JS.replace "group-" "" key) ≠ JS.NaN).
Proof.
  intros Hr.
  assert (activeGroupId st = None ∨ ∃ n, activeGroupId st = Some (group_key n)) as H.
  { induction Hr as [|e st _ IH _]; [left; reflexivity|].
    destruct e as [| | | |group entries| | |];
      try (rewrite handle_activeGroupId by (intros ? ?; discriminate); exact IH).
    cbn [handle]. unfold exec. rewrite observer_callback_run.
    destruct (existsb isIntersecting entries); [|exact IH].
    right. exists (id group). reflexivity. }
  split; [exact H|].
  intros key Hkey. destruct H as [H|[n H]]; rewrite H in Hkey; [done|].
  injection Hkey as <-. rewrite decode_group_key. discriminate.
Qed.

Lemma reachable_activeGroupId_derived_witness :
  reachable entered_state ∧
  activeGroupId entered_state = Some "group-2" ∧
  JS.parseInt (JS.replace "group-" "" "group-2") ≠ JS.NaN.
Proof.
  assert (reachable entered_state) as Hr.
  { apply reachable_handle; [|exact I].
    apply (reachable_handle (Mount (scenario_props None) (scenario_page 0))
             initial_state reachable_initial).
    cbn. compute_done. }
  split; [exact Hr|]. split; [reflexivity|].
  exact (proj2 (reachable_activeGroupId_derived entered_state Hr) "group-2" eq_refl).
Defined.

(** ** Derived element ids *)

(** X9. For safe integers the element id [`group-${id}`] determines the
    group id: two safe integers with the same derived id are equal, and
    decoding the derived id of a safe integer, negative ones included, gives
    the integer back. *)
Theorem derived_ids_distinct m n :
  JS.isSafeInteger m → JS.isSafeInteger n →
  (group_key m = group_key n ↔ m = n) ∧
  JS.parseInt (JS.replace "group-" "" (group_key n)) = JS.Int n.
Proof.
  intros _ _. split; [|apply decode_group_key].
  split; [apply group_key_inj | intros ->; reflexivity].
Qed.

Lemma derived_ids_distinct_witness :
  JS.parseInt (JS.replace "group-" "" (group_key (-17))) = JS.Int (-17).
Proof.
  apply (derived_ids_distinct 12 (-17)); unfold JS.isSafeInteger; lia.
Defined.

(** ** What is rendered *)

(** X10. When the ids of the list are unique, at most one item of the
    rendered list is selected, and an item is selected exactly when the
    active id is the element id of its group; nothing is rendered exactly
    when the list is empty. *)
Theorem GroupNavigation_selected props page st :
  NoDup (id <$> groups props) →
  (GroupNavigation props page st = None ↔ groups props = []) ∧
  (∀ view, GroupNavigation props page st = Some view →
     (∀ i j item item',
        view_items view !! i = Some item → view_items view !! j = Some item' →
        item_selected item = true → item_selected item' = true → i = j) ∧
     (∀ i item, view_items view !! i = Some item →
        item_selected item = true ↔ activeGroupId st = Some (item_target item)) ∧
     item_target <$> view_items view = (λ group, group_key (id group)) <$> groups props).
Proof.
  intros Hnd. unfold GroupNavigation. split.
  - case_decide as He; [|split; [done|]].
    + split; [|done]. intros _. destruct (groups props); done.
    + intros Hg. rewrite Hg in He. done.
  - intros view. case_decide as He; [done|]. intros [= <-]. cbn [view_items].
    split; [|split].
    + intros i j item item'. rewrite !list_lookup_fmap.
      destruct (groups props !! i) as [g|] eqn:Hi; [|done].
      destruct (groups props !! j) as [g'|] eqn:Hj; [|done].
      intros [= <-] [= <-]. cbn [item_selected].
      rewrite !bool_decide_eq_true. intros H1 H2.
      assert (group_key (id g) = group_key (id g')) as Hk by congruence.
      apply group_key_inj in Hk. clear H2. rename Hk into H2.
      apply (NoDup_lookup _ _ _ (id g) Hnd); rewrite list_lookup_fmap.
      * rewrite Hi. reflexivity.
      * rewrite Hj. cbn. f_equal. symmetry. exact H2.
    + intros i item. rewrite list_lookup_fmap.
      destruct (groups props !! i) as [g|]; [|done].
      intros [= <-]. cbn [item_selected item_target]. apply bool_decide_eq_true.
    + rewrite <- list_fmap_compose. reflexivity.
Qed.

Lemma GroupNavigation_selected_witness :
  NoDup (id <$> groups (scenario_props None)) ∧
  ∀ view, GroupNavigation (scenario_props None) (scenario_page 600) pinned_state
          = Some view →
          item_target <$> view_items view = ["group-1"; "group-2"; "group-3"].
Proof.
  assert (NoDup (id <$> groups (scenario_props None))) as Hnd by (cbn; compute_done).
  split; [exact Hnd|]. intros view Hview.
  destruct (proj2 (GroupNavigation_selected
                     (scenario_props None) (scenario_page 600) pinned_state Hnd)
              view Hview) as (_ & _ & ->).
  reflexivity.
Defined.

(** ** More on the observers *)

Lemma live_idle os refs st :
  (∀ h, is_observing os h = false) → live (with_observers os refs st) = [].
Proof.
  intros Hidle. unfold live, observing. cbn [observers with_observers].
  apply filter_none, Forall_forall. intros h _. rewrite Hidle. intros [].
Qed.

(** X11. The clean-up of the observer effect, run in any reachable state,
    disconnects the observers on record and leaves no observer observing
    anything. *)
Theorem observers_cleanup_releases_all st :
  reachable st →
  live (exec observers_cleanup st) = [] ∧
  trace observers_cleanup st = CallDisconnect <$> handles (observerRefs st) ∧
  (∀ h, observing st h = true → CallDisconnect h ∈ trace observers_cleanup st).
Proof.
  intros Hr. apply reachable_tracked in Hr.
  unfold observers_cleanup, exec, trace. rewrite disconnect_all_run. cbn [fst snd].
  split; [apply live_idle, disconnected_idle, Hr|]. split; [reflexivity|].
  intros h Hh. apply list_elem_of_fmap_2, tracked_handles; done.
Qed.

Lemma observers_cleanup_releases_all_witness :
  reachable mounted_state ∧
  live mounted_state = [0; 1; 2]%nat ∧
  live (exec observers_cleanup mounted_state) = [].
Proof.
  assert (reachable mounted_state) as Hr.
  { apply (reachable_handle (Mount (scenario_props None) (scenario_page 0))
             initial_state reachable_initial).
    cbn. compute_done. }
  split; [exact Hr|]. split; [reflexivity|].
  exact (proj1 (observers_cleanup_releases_all mounted_state Hr)).
Defined.

Lemma created_observers_creation_calls n gs :
  created_observers (creation_calls n gs) = seq n (length gs).
Proof.
  revert n. induction gs as [|g gs IH]; intros n; [reflexivity|].
  cbn. f_equal. apply IH.
Qed.

(** X12. Mounting in a reachable state, with unique ids, creates one
    observer for each section whose element is in the document, in list
    order, each observing that element alone, and none for a section whose
    element is absent; the observers it creates are exactly those in use
    afterwards. *)
Theorem mount_creates_observers props page st :
  reachable st → NoDup (id <$> groups props) →
  let st' := exec (mount props page) st in
  (λ h, observers st' !! h) <$> live st'
  = (λ group, Some (observer_of group)) <$> present_groups props page ∧
  created_observers (trace (mount props page) st) = live st' ∧
  (∀ h, (h < length (observers st))%nat → observing st' h = false).
Proof.
  intros Hr Hnd. apply reachable_tracked in Hr.
  pose proof (disconnected_idle st Hr) as Hidle.
  cbn zeta. unfold exec, trace. rewrite mount_run. cbn [fst snd].
  set (os := disconnected (handles (observerRefs st)) (observers st)) in *.
  rewrite live_renewed by done. cbn [observers with_observers].
  split; [apply lookup_renewed|]. split.
  - cbn. unfold created_observers. rewrite omap_app. fold created_observers.
    rewrite created_observers_disconnects, created_observers_creation_calls.
    reflexivity.
  - intros h Hh. unfold observing. cbn [observers with_observers].
    rewrite is_observing_old; [apply Hidle|].
    subst os. rewrite length_disconnected. exact Hh.
Qed.

Lemma mount_creates_observers_witness :
  reachable initial_state ∧ NoDup (id <$> groups reordered_props) ∧
  created_observers (trace (mount reordered_props (scenario_page 0)) initial_state)
  = [0; 1]%nat.
Proof.
  assert (NoDup (id <$> groups reordered_props)) as Hnd by (cbn; compute_done).
  split; [exact reachable_initial|]. split; [exact Hnd|].
  destruct (mount_creates_observers reordered_props (scenario_page 0) initial_state
              reachable_initial Hnd) as (_ & -> & _).
  reflexivity.
Defined.

Lemma assign_fresh key v refs :
  key ∉ refs.*1 → assign key v refs = refs ++ [(key, v)].
Proof.
  induction refs as [|[k w] refs IH]; intros Hk; [reflexivity|].
  cbn in Hk |- *. apply not_elem_of_cons in Hk as [Hne Hk].
  rewrite decide_False by done. f_equal. apply IH, Hk.
Qed.

Lemma registered_fresh n refs gs :
  NoDup ((λ g, group_key (id g)) <$> gs) →
  (∀ key, key ∈ (λ g, group_key (id g)) <$> gs → key ∉ refs.*1) →
  registered n refs gs = refs ++ recorded n gs.
Proof.
  revert n refs. induction gs as [|g gs IH]; intros n refs Hnd Hfresh.
  - cbn. rewrite app_nil_r. reflexivity.
  - rewrite fmap_cons in Hnd, Hfresh. apply NoDup_cons in Hnd as [Hg Hnd].
    cbn [registered recorded].
    rewrite assign_fresh by (apply Hfresh, list_elem_of_here).
    rewrite IH; [rewrite <- app_assoc; reflexivity | exact Hnd |].
    intros key Hkey. rewrite fmap_app, elem_of_app. intros [Hin|Hin].
    + apply (Hfresh key); [apply list_elem_of_further, Hkey | exact Hin].
    + cbn in Hin. apply list_elem_of_singleton in Hin. subst key. done.
Qed.

Lemma recorded_keys n gs : (recorded n gs).*1 = (λ g, group_key (id g)) <$> gs.
Proof.
  revert n. induction gs as [|g gs IH]; intros n; [reflexivity|].
  cbn. f_equal. apply IH.
Qed.

Lemma recorded_handles n gs : (recorded n gs).*2 = Some <$> seq n (length gs).
Proof.
  revert n. induction gs as [|g gs IH]; intros n; [reflexivity|].
  cbn. f_equal. apply IH.
Qed.

(** X13. After a change to a list with unique ids, in any reachable state,
    [observerRefs] holds one entry for each section whose element is in the
    document, keyed by the element id in list order, and its values are
    exactly the observers in use, in the same order. *)
Theorem observerRefs_records_live props page st :
  reachable st → NoDup (id <$> groups props) →
  let st' := exec (groups_changed props page) st in
  (observerRefs st').*1 = (λ group, group_key (id group)) <$> present_groups props page ∧
  (observerRefs st').*2 = Some <$> live st'.
Proof.
  intros Hr Hnd. apply reachable_tracked in Hr.
  pose proof (disconnected_twice_idle st Hr) as Hidle.
  pose proof (present_groups_keys props page Hnd) as Hkeys.
  cbn zeta. unfold exec. rewrite groups_changed_run. cbn [fst snd].
  rewrite live_renewed by done. cbn [observerRefs with_observers].
  rewrite registered_fresh; [|exact Hkeys|intros key _; apply not_elem_of_nil].
  cbn [app]. split; [apply recorded_keys | apply recorded_handles].
Qed.

Lemma observerRefs_records_live_witness :
  reachable mounted_state ∧ NoDup (id <$> groups reordered_props) ∧
  (observerRefs (exec (groups_changed reordered_props (scenario_page 300))
                      mounted_state)).*1
  = ["group-2"; "group-1"].
Proof.
  assert (reachable mounted_state) as Hr.
  { apply (reachable_handle (Mount (scenario_props None) (scenario_page 0))
             initial_state reachable_initial).
    cbn. compute_done. }
  assert (NoDup (id <$> groups reordered_props)) as Hnd by (cbn; compute_done).
  split; [exact Hr|]. split; [exact Hnd|].
  rewrite (proj1 (observerRefs_records_live reordered_props (scenario_page 300)
                    mounted_state Hr Hnd)).
  reflexivity.
Defined.

Lemma lookup_disconnected hs os h o' :
  disconnected hs os !! h = Some o' →
  ∃ o, os !! h = Some o ∧ (o' = o ∨ o' = cleared o).
Proof.
  revert os. induction hs as [|a hs IH]; intros os H; [eauto|].
  apply IH in H as (o1 & H & Ho'). destruct (decide (a = h)) as [->|Hne].
  - rewrite list_lookup_alter_eq in H. destruct (os !! h) as [o|]; [|done].
    injection H as <-. exists o. split; [reflexivity|]. right.
    destruct Ho' as [->| ->]; reflexivity.
  - rewrite list_lookup_alter_ne in H by done. eauto.
Qed.

Lemma well_targeted_renewed hs os gs refs st :
  (∀ h o, os !! h = Some o →
          observer_targets o = [] ∨
          observer_targets o = [group_key (id (observer_group o))]) →
  well_targeted (with_observers (disconnected hs os ++ (observer_of <$> gs)) refs st).
Proof.
  intros Hos h o'. cbn [observers with_observers]. intros H.
  apply lookup_app_Some in H as [H|[_ H]].
  - apply lookup_disconnected in H as (o & Ho & [->| ->]); [eauto | left; reflexivity].
  - apply list_lookup_fmap_Some in H as (g & -> & _). right. reflexivity.
Qed.

Lemma well_targeted_ext st st' :
  observers st' = observers st → well_targeted st → well_targeted st'.
Proof. unfold well_targeted. intros -> H. exact H. Qed.

(** X14. In every reachable state each observer observes nothing or just
    the element of the group its callback was made for, so an intersection it
    reports is always recorded under the id of the element that intersected. *)
Theorem reachable_well_targeted st : reachable st → well_targeted st.
Proof.
  induction 1 as [|e st _ IH _]; [intros h o; done|].
  destruct e as [props page|props page|page|props page|group entries
                 |props page groupId|groupId|groupId]; cbn [handle].
  - unfold exec. rewrite mount_run. cbn. apply well_targeted_renewed, IH.
  - unfold exec. rewrite groups_changed_run. cbn. apply well_targeted_renewed.
    intros h o H. apply lookup_disconnected in H as (o0 & Ho & [->| ->]);
      [eauto | left; reflexivity].
  - destruct (updateNavPosition_observers page st). eapply well_targeted_ext; done.
  - destruct (handleScroll_observers props page st). eapply well_targeted_ext; done.
  - destruct (observer_callback_observers group entries st).
    eapply well_targeted_ext; done.
  - unfold exec. rewrite handleNavClick_run. eapply well_targeted_ext; [|exact IH]; done.
  - eapply well_targeted_ext; [|exact IH]; done.
  - eapply well_targeted_ext; [|exact IH]; done.
Qed.

Lemma reachable_well_targeted_witness :
  reachable mounted_state ∧ targets_of mounted_state 1 = ["group-2"].
Proof.
  assert (reachable mounted_state) as Hr.
  { apply (reachable_handle (Mount (scenario_props None) (scenario_page 0))
             initial_state reachable_initial).
    cbn. compute_done. }
  split; [exact Hr|].
  destruct (reachable_well_targeted mounted_state Hr 1%nat
              (observer_of {| id := 2; name := "Docs" |}) eq_refl) as [H|H];
    [discriminate H | exact H].
Defined.

(** ** Which event does what *)

(** X15. Each state cell has its own writers: the pin state changes only
    on a scroll event with the container mounted, the stored geometry only on
    a measurement with both refs attached, the tooltip map only on pointer
    enter, pointer leave and click, and the observers and [observerRefs] only
    on mount and on a change of the list. *)
Theorem handle_frame e st :
  let st' := exec (handle e) st in
  (isSticky st' ≠ isSticky st →
   ∃ props page, e = Scroll props page ∧ is_Some (navRef page)) ∧
  (navPosition st' ≠ navPosition st →
   ∃ page, e = Resize page ∧ is_Some (firstGroupRef page) ∧ is_Some (navRef page)) ∧
  (tooltipOpen st' ≠ tooltipOpen st → is_Some (hover_of e)) ∧
  (observers st' ≠ observers st ∨ observerRefs st' ≠ observerRefs st →
   ∃ props page, e = Mount props page ∨ e = GroupsChanged props page).
Proof.
  cbn zeta. unfold exec.
  destruct e as [props page|props page|page|props page|group entries
                 |props page groupId|groupId|groupId]; cbn [handle hover_of].
  - rewrite mount_run. cbn. repeat split; try done. eauto.
  - rewrite groups_changed_run. cbn. repeat split; try done. eauto.
  - unfold updateNavPosition.
    destruct (firstGroupRef page) as [marker|] eqn:Hm, (navRef page) as [nav|] eqn:Hn;
      cbn; repeat split; try done; try (intros [?|?]; done).
    intros _. exists page. rewrite Hm, Hn. eauto.
  - destruct (navRef page) as [nav|] eqn:H.
    + rewrite handleScroll_mounted by eauto. cbn.
      repeat split; try done; try (intros [?|?]; done).
      intros _. exists props, page. rewrite H. eauto.
    + rewrite handleScroll_unmounted by done. cbn.
      repeat split; try done. intros [?|?]; done.
  - rewrite observer_callback_run. destruct (existsb isIntersecting entries); cbn;
      repeat split; try done; intros [?|?]; done.
  - rewrite handleNavClick_run. cbn. repeat split; try done; eauto.
    intros [?|?]; done.
  - cbn. repeat split; try done; eauto. intros [?|?]; done.
  - cbn. repeat split; try done; eauto. intros [?|?]; done.
Qed.

Lemma omap_housekeeping {B} (f : Call → option B) t :
  (∀ c, housekeeping c → f c = None) → Forall housekeeping t → omap f t = [].
Proof.
  intros Hf. induction 1 as [|c t Hc _ IH]; [reflexivity|].
  cbn. rewrite (Hf c Hc). exact IH.
Qed.

Lemma creation_calls_housekeeping n gs : Forall housekeeping (creation_calls n gs).
Proof.
  revert n. induction gs as [|g gs IH]; intros n; cbn; [constructor|].
  repeat constructor. apply IH.
Qed.

Lemma disconnects_housekeeping hs : Forall housekeeping (CallDisconnect <$> hs).
Proof. apply Forall_fmap, Forall_forall. intros h _. exact I. Qed.

Lemma life_cycle_housekeeping props page st :
  Forall housekeeping (trace (mount props page) st) ∧
  Forall housekeeping (trace (groups_changed props page) st).
Proof.
  unfold trace. rewrite mount_run, groups_changed_run. cbn [snd]. split.
  - repeat (apply Forall_cons; split; [exact I|]).
    apply Forall_app. split;
      [apply disconnects_housekeeping | apply creation_calls_housekeeping].
  - apply Forall_app. split; [|apply creation_calls_housekeeping].
    apply Forall_cons. split; [exact I|]. apply Forall_app. split;
      [apply disconnects_housekeeping|].
    repeat (apply Forall_cons; split; [exact I|]). apply disconnects_housekeeping.
Qed.

Lemma housekeeping_silent t :
  Forall housekeeping t →
  scroll_targets t = [] ∧ group_clicks t = [] ∧ pin_notifications t = [].
Proof.
  intros H. repeat split; apply omap_housekeeping; try exact H; by intros [].
Qed.

(** X16. Each call to the outside has its own event: the document is
    scrolled only by a click whose element exists, [onGroupClick] is called
    only by a click with the listener passed, and [onPinChange] only by a
    scroll event with the listener passed and the container mounted. In
    particular no scroll event scrolls the document and no click reports a
    pin change. *)
Theorem calls_by_event e st :
  let t := trace (handle e) st in
  (scroll_targets t ≠ [] →
   ∃ props page groupId,
     e = Click props page groupId ∧ is_Some (getElementById page !! groupId)) ∧
  (group_clicks t ≠ [] →
   ∃ props page groupId, e = Click props page groupId ∧ onGroupClick props = true) ∧
  (pin_notifications t ≠ [] →
   ∃ props page,
     e = Scroll props page ∧ onPinChange props = true ∧ is_Some (navRef page)).
Proof.
  cbn zeta.
  destruct e as [props page|props page|page|props page|group entries
                 |props page groupId|groupId|groupId]; cbn [handle].
  - destruct (life_cycle_housekeeping props page st) as [H _].
    apply housekeeping_silent in H as (-> & -> & ->). done.
  - destruct (life_cycle_housekeeping props page st) as [_ H].
    apply housekeeping_silent in H as (-> & -> & ->). done.
  - unfold trace, updateNavPosition.
    destruct (firstGroupRef page), (navRef page); done.
  - destruct (navRef page) as [nav|] eqn:H.
    + rewrite trace_handleScroll_mounted by eauto.
      destruct (onPinChange props) eqn:Hl; [|done].
      destruct (xorb _ _); cbn; [|done].
      repeat split; try done. intros _. exists props, page. rewrite H. eauto.
    + unfold trace. rewrite handleScroll_unmounted by done. done.
  - unfold trace. rewrite observer_callback_run. done.
  - unfold trace. rewrite handleNavClick_run. cbn [snd].
    destruct (getElementById page !! groupId) as [element|] eqn:He,
             (onGroupClick props) eqn:Hl; cbn; repeat split; try done; eauto 10.
  - done.
  - done.
Qed.

(** ** Measuring, pinning and selecting together *)

Lemma scroll_targets_app t1 t2 :
  scroll_targets (t1 ++ t2) = scroll_targets t1 ++ scroll_targets t2.
Proof. apply omap_app. Qed.

Lemma calls_free_of_scroll props measured scrolled st :
  scroll_targets (trace (updateNavPosition measured) st) = [] ∧
  scroll_targets (trace (handleScroll props scrolled)
                        (exec (updateNavPosition measured) st)) = [].
Proof.
  split.
  - unfold trace, updateNavPosition.
    destruct (firstGroupRef measured), (navRef measured); reflexivity.
  - set (st1 := exec (updateNavPosition measured) st). clearbody st1.
    unfold trace. destruct (navRef scrolled) as [nav|] eqn:H.
    + rewrite handleScroll_mounted by eauto. cbn [snd].
      destruct (onPinChange props && _); reflexivity.
    + rewrite handleScroll_unmounted by done. reflexivity.
Qed.

(** X17. The offset a click leaves above its target is the height that
    was measured: after a measurement with both refs attached and a scroll
    evaluation with the container mounted, a click on an id whose element
    exists scrolls to the element's document position less the measured
    container height plus 20 when that evaluation pinned the navigator, and
    less 20 when it did not; the three events scroll the document once. *)
Theorem click_after_measure_and_scroll props measured scrolled clicked groupId st
    marker nav element :
  firstGroupRef measured = Some marker → navRef measured = Some nav →
  is_Some (navRef scrolled) →
  getElementById clicked !! groupId = Some element →
  let st1 := exec (handle (Resize measured)) st in
  scroll_targets
    (trace (run [Resize measured; Scroll props scrolled; Click props clicked groupId]) st)
  = [rect_top element + scrollY clicked
     - (if pinned_at scrolled st1 then rect_height nav + 20 else 20)].
Proof.
  intros Hm Hn Hs He st1. subst st1. unfold run.
  rewrite !trace_forEach_cons. cbn [forEach handle].
  rewrite !scroll_targets_app.
  destruct (calls_free_of_scroll props measured scrolled st) as [-> ->].
  cbn [app].
  rewrite exec_handleScroll_mounted by done.
  unfold trace. rewrite handleNavClick_run, He. cbn [snd fst].
  rewrite scroll_targets_app.
  assert (scroll_targets
            (if onGroupClick props
             then [CallOnGroupClick (JS.parseInt (JS.replace "group-" "" groupId))]
             else []) = []) as -> by (destruct (onGroupClick props); reflexivity).
  cbn [app isSticky exec setIsSticky modify fst snd].
  unfold updateNavPosition. rewrite Hm, Hn. reflexivity.
Qed.

Lemma click_after_measure_and_scroll_witness :
  scroll_targets
    (trace (run [Resize (scenario_page 0); Scroll (scenario_props None) (scenario_page 640);
                 Click (scenario_props None) (scenario_page 640) "group-3"])
           initial_state)
  = [900].
Proof.
  exact (click_after_measure_and_scroll
           (scenario_props None) (scenario_page 0) (scenario_page 640) (scenario_page 640)
           "group-3" initial_state
           {| rect_top := 500; rect_left := 0; rect_height := 0 |}
           {| rect_top := 500; rect_left := 40; rect_height := 80 |}
           {| rect_top := 360; rect_left := 160; rect_height := 700 |}
           eq_refl eq_refl (ex_intro _ _ eq_refl) eq_refl).
Defined.
